(** * ezdxf_normalize: DXF geometry normalisation

    A shallow embedding of [tools/python/ezdxf_normalize.py] and the
    properties its specification states about it.

    Modelling conventions.
    - A Python [float] is a real number ([R]); [math.cos], [math.sin],
      [math.pi], [math.radians] and [math.hypot] are the real functions.
      Rounding is not modelled.
    - A Python [int] is a [Z]; [range n] is the list [0; 1; ...; n-1],
      empty when [n <= 0].
    - A point is the Python list of its coordinates ([list R]).
    - An exception is a value of [exn]; a computation that may raise
      returns a [result].  Code that appends to [out] or prints to
      [sys.stderr] runs in the state-and-exception monad [M]; what was
      appended or printed before an exception is raised stays. *)

From Stdlib Require Import Reals Lra Lia ZArith List String Bool.
Import ListNotations.

Local Open Scope R_scope.

(** ** Exceptions and results *)

Inductive exn : Type :=
| ZeroDivisionError
| IndexError
| ValueError
| TypeError
| AttributeError
| RecursionError.

Inductive result (A : Type) : Type :=
| Ok (a : A)
| Raise (ex : exn).

Arguments Ok {A} a.
Arguments Raise {A} ex.

Definition bind {A B : Type} (r : result A) (k : A -> result B) : result B :=
  match r with
  | Ok a => k a
  | Raise ex => Raise ex
  end.

Declare Scope result_scope.
Delimit Scope result_scope with result.
Bind Scope result_scope with result.

Notation "x <- c ;; k" := (bind c (fun x => k))
  (at level 61, c at next level, right associativity) : result_scope.

Local Open Scope result_scope.

(** A list comprehension, or a loop that appends one value per
    iteration: left to right, the first exception ends it. *)
Fixpoint mapM {A B : Type} (f : A -> result B) (l : list A) : result (list B) :=
  match l with
  | [] => Ok []
  | x :: xs => y <- f x ;; ys <- mapM f xs ;; Ok (y :: ys)
  end.

(** ** Python primitives *)

Definition range (n : Z) : list Z := map Z.of_nat (seq 0 (Z.to_nat n)).

(** [l[i]]: a negative index counts from the end. *)
Definition getitem {A : Type} (l : list A) (i : Z) : result A :=
  let i' := if (i <? 0)%Z then (i + Z.of_nat (List.length l))%Z else i in
  if (i' <? 0)%Z then Raise IndexError
  else match nth_error l (Z.to_nat i') with
       | Some a => Ok a
       | None => Raise IndexError
       end.

(** [x / n] for an [int] divisor. *)
Definition truediv (x : R) (n : Z) : result R :=
  if (n =? 0)%Z then Raise ZeroDivisionError else Ok (x / IZR n).

(** [f(..., kw=dflt)] called with or without the keyword argument. *)
Definition kwarg {A : Type} (dflt : A) (supplied : option A) : A :=
  match supplied with
  | Some v => v
  | None => dflt
  end.

Definition radians (deg : R) : R := deg * (PI / 180).

Definition hypot (x y : R) : R := sqrt (x * x + y * y).

(** [int(x)] on a float: truncation towards zero. *)
Definition int_of_float (x : R) : Z :=
  if Rle_dec 0 x then Int_part x else (- Int_part (- x))%Z.

(** ** Affine placement *)

Definition rot_point (x y ang_deg : R) : R * R :=
  let ang := radians ang_deg in
  let ca := cos ang in
  let sa := sin ang in
  let rx := x * ca - y * sa in
  let ry := x * sa + y * ca in
  (rx, ry).

Definition transform_point (pt insert : list R) (sx sy rotation : R)
  : result (list R) :=
  p0 <- getitem pt 0 ;;
  let x := p0 * sx in
  p1 <- getitem pt 1 ;;
  let y := p1 * sy in
  let '(rx, ry) := rot_point x y rotation in
  i0 <- getitem insert 0 ;;
  i1 <- getitem insert 1 ;;
  Ok [rx + i0; ry + i1].

(** ** Curve samplers *)

Definition sample_arc (cx cy r start_deg end_deg : R) (segments : option Z)
  : result (list (list R)) :=
  let segments := kwarg 36%Z segments in
  let start := radians start_deg in
  let end_ := radians end_deg in
  let end_ := if Rlt_dec end_ start then end_ + 2 * PI else end_ in
  mapM (fun i =>
          q <- truediv (IZR i) segments ;;
          let t := start + (end_ - start) * q in
          Ok [cx + r * cos t; cy + r * sin t])
       (range (segments + 1)).

Definition sample_circle (cx cy r : R) (segments : option Z)
  : result (list (list R)) :=
  let segments := kwarg 48%Z segments in
  pts <- mapM (fun i =>
                 t <- truediv (2 * PI * IZR i) segments ;;
                 Ok [cx + r * cos t; cy + r * sin t])
              (range segments) ;;
  match pts with
  | [] => Ok pts
  | p0 :: _ => Ok (pts ++ [p0])
  end.

(** ** Output records, diagnostics and the state monad *)

(** The dictionaries appended to [out], by their ["type"] entry. *)
Inductive record : Type :=
| polyline (points : list (list R))
| circle (cx cy r : R)
| arc (cx cy r start end_ : R).

(** The lines printed to [sys.stderr].  [Warning what ex] stands for
    ["Warning: " + what], followed by [": " + str(ex)] when the line
    reports an exception. *)
Inductive message : Type :=
| Processing_entity (t : string)
| Expanding_INSERT (name : string) (insert_pt : list R) (sx sy rotation : R)
| Ignored_entity_type (t : string)
| Warning (what : string) (ex : option exn).

Record world : Type := mkWorld
  { out : list record;
    stderr : list message }.

Definition M (A : Type) : Type := world -> result A * world.

Definition ret {A : Type} (a : A) : M A := fun w => (Ok a, w).

Definition bindM {A B : Type} (c : M A) (k : A -> M B) : M B :=
  fun w =>
    match c w with
    | (Ok a, w') => k a w'
    | (Raise ex, w') => (Raise ex, w')
    end.

Declare Scope M_scope.
Delimit Scope M_scope with M.
Bind Scope M_scope with M.

Notation "x <- c ;; k" := (bindM c (fun x => k))
  (at level 61, c at next level, right associativity) : M_scope.
Notation "c ;; k" := (bindM c (fun _ => k))
  (at level 61, right associativity) : M_scope.

Definition lift {A : Type} (r : result A) : M A := fun w => (r, w).

Definition out_append (rec : record) : M unit :=
  fun w => (Ok tt, mkWorld (out w ++ [rec]) (stderr w)).

Definition print (m : message) : M unit :=
  fun w => (Ok tt, mkWorld (out w) (stderr w ++ [m])).

(** [try: body / except Exception as ex: handler ex]. *)
Definition try_except {A : Type} (body : M A) (handler : exn -> M A) : M A :=
  fun w =>
    match body w with
    | (Ok a, w') => (Ok a, w')
    | (Raise ex, w') => handler ex w'
    end.

Definition when (b : bool) (c : M unit) : M unit :=
  if b then c else ret tt.

Fixpoint for_each {A : Type} (l : list A) (body : A -> M unit) : M unit :=
  match l with
  | [] => ret tt
  | x :: xs => (body x ;; for_each xs body)%M
  end.

(** ** The document model supplied by ezdxf *)

(** Reading an attribute of an entity gives its value or raises. *)
Abbreviation attr := result (only parsing).

Record vertex : Type := mkVertex
  { vertex_x : attr R;
    vertex_y : attr R }.

(** Entities by [dxftype()]; each carries the attributes its handler
    reads.  [OTHER t] is an entity of any type the dispatch does not
    name. *)
Inductive entity : Type :=
| LINE (start end_ : attr (list R))
| LWPOLYLINE (get_points : attr (list (list R)))
| POLYLINE (vertices : attr (list vertex))
| CIRCLE (center : attr (list R)) (radius : attr R)
| ARC (center : attr (list R)) (radius start_angle end_angle : attr R)
| ELLIPSE (center major_axis : attr (list R)) (ratio : attr R)
| SPLINE (fit_points control_points : attr (list (list R)))
| INSERT (name : attr string) (insert : attr (list R))
         (xscale yscale rotation : attr R)
| OTHER (t : string).

Definition dxftype (e : entity) : string :=
  match e with
  | LINE _ _ => "LINE"
  | LWPOLYLINE _ => "LWPOLYLINE"
  | POLYLINE _ => "POLYLINE"
  | CIRCLE _ _ => "CIRCLE"
  | ARC _ _ _ _ => "ARC"
  | ELLIPSE _ _ _ => "ELLIPSE"
  | SPLINE _ _ => "SPLINE"
  | INSERT _ _ _ _ _ => "INSERT"
  | OTHER t => t
  end.

Record document : Type := mkDocument
  { modelspace : list entity;
    blocks : list (string * list entity) }.

(** [doc.blocks.get(name)] *)
Fixpoint blocks_get (tbl : list (string * list entity)) (name : string)
  : option (list entity) :=
  match tbl with
  | [] => None
  | (n, blk) :: rest => if String.eqb n name then Some blk else blocks_get rest name
  end.

(** [getattr(obj, name, dflt)] *)
Definition getattr {A : Type} (a : attr A) (dflt : A) : result A :=
  match a with
  | Raise AttributeError => Ok dflt
  | _ => a
  end.

(** [hasattr(obj, name)] *)
Definition hasattr {A : Type} (a : attr A) : result bool :=
  match a with
  | Ok _ => Ok true
  | Raise AttributeError => Ok false
  | Raise ex => Raise ex
  end.

(** Truth value of a list. *)
Definition truthy {A : Type} (l : list A) : bool :=
  match l with
  | [] => false
  | _ :: _ => true
  end.

(** [parent_transform]: the tuple [(insert_pt, sx, sy, rotation)]. *)
Definition transform : Type := list R * R * R * R.

(** [transform_point(p, *parent_transform)] *)
Definition transform_point_star (p : list R) (parent_transform : transform)
  : result (list R) :=
  let '(insert, sx, sy, rotation) := parent_transform in
  transform_point p insert sx sy rotation.

(** ** spline_to_poly *)

(** The body of the [try]: [Some pts] when it returns [pts], [None]
    when control leaves the [try] without returning. *)
Definition spline_to_poly_try (fit_points control_points : attr (list (list R)))
  (segments : Z) : result (option (list (list R))) :=
  has <- hasattr fit_points ;;
  use_fit <- (if has then fp <- fit_points ;; Ok (truthy fp) else Ok false) ;;
  if use_fit then
    pts <- fit_points ;;
    Ok (Some pts)
  else
    control <- getattr control_points [] ;;
    if truthy control then
      pts <- mapM (fun i =>
                     q <- truediv (IZR i) segments ;;
                     let idx := int_of_float
                                  (q * IZR (Z.of_nat (List.length control) - 1)) in
                     getitem control idx)
                  (range (segments + 1)) ;;
      Ok (Some pts)
    else Ok None.

Definition spline_to_poly (fit_points control_points : attr (list (list R))) 
  (segments : option Z) : M (list (list R)) :=
  let segments := kwarg 48%Z segments in
  (returned <- try_except
                 (lift (spline_to_poly_try fit_points control_points segments))
                 (fun ex => print (Warning "spline_to_poly failed" (Some ex)) ;;
                            ret None) ;;
   match returned with
   | Some pts => ret pts
   | None => ret []
   end)%M.

(** ** process_entity *)

(** [pts = [transform_point(p, *parent_transform) for p in pts]] under
    [if parent_transform:]. *)
Definition transform_all (parent_transform : option transform)
  (pts : list (list R)) : result (list (list R)) :=
  match parent_transform with
  | Some tr => mapM (fun p => transform_point_star p tr) pts
  | None => Ok pts
  end.

(** [pts = [transform_point([p[0] + cx, p[1] + cy], *parent_transform)
    for p in pts]] *)
Definition recentre_and_transform (cx cy : R) (tr : transform)
  (pts : list (list R)) : result (list (list R)) :=
  mapM (fun p =>
          p0 <- getitem p 0 ;;
          p1 <- getitem p 1 ;;
          transform_point_star [p0 + cx; p1 + cy] tr)
       pts.

(** The loop of the ELLIPSE branch. *)
Definition ellipse_points (cx cy rx ry : R) (approx_segs : Z)
  : result (list (list R)) :=
  mapM (fun i =>
          a <- truediv (2 * PI * IZR i) approx_segs ;;
          Ok [cx + rx * cos a; cy + ry * sin a])
       (range approx_segs).

(** The bodies of the [try] blocks, one per branch. *)

Definition LINE_try (start end_ : attr (list R))
  (parent_transform : option transform) : M unit :=
  (pts <- lift (s <- start ;; s0 <- getitem s 0 ;;
                s <- start ;; s1 <- getitem s 1 ;;
                let start := [s0; s1] in
                e <- end_ ;; e0 <- getitem e 0 ;;
                e <- end_ ;; e1 <- getitem e 1 ;;
                let end_ := [e0; e1] in
                match parent_transform with
                | Some tr =>
                    start <- transform_point_star start tr ;;
                    end_ <- transform_point_star end_ tr ;;
                    Ok [start; end_]
                | None => Ok [start; end_]
                end)%result ;;
   out_append (polyline pts))%M.

Definition LWPOLYLINE_try (get_points : attr (list (list R)))
  (parent_transform : option transform) : M unit :=
  (pts <- lift (pts_raw <- get_points ;;
                pts <- mapM (fun v =>
                               match v with
                               | x :: y :: rest => Ok [x; y]
                               | _ => Raise ValueError
                               end)
                            pts_raw ;;
                transform_all parent_transform pts)%result ;;
   out_append (polyline pts))%M.

Definition POLYLINE_try (vertices : attr (list vertex))
  (parent_transform : option transform) : M unit :=
  (pts <- lift (vs <- vertices ;;
                pts <- mapM (fun v =>
                               x <- vertex_x v ;;
                               y <- vertex_y v ;;
                               Ok [x; y])
                            vs ;;
                transform_all parent_transform pts)%result ;;
   if truthy pts then out_append (polyline pts) else ret tt)%M.

Definition CIRCLE_try (center : attr (list R)) (radius : attr R)
  (approx_segs : Z) (parent_transform : option transform) : M unit :=
  (c <- lift center ;; cx <- lift (getitem c 0) ;;
   c <- lift center ;; cy <- lift (getitem c 1) ;;
   r <- lift radius ;;
   match parent_transform with
   | Some tr =>
       pts <- lift (sample_circle 0 0 r (Some approx_segs)) ;;
       pts <- lift (recentre_and_transform cx cy tr pts) ;;
       out_append (polyline pts)
   | None =>
       pts <- lift (sample_circle cx cy r (Some approx_segs)) ;;
       out_append (polyline pts)
   end ;;
   out_append (circle cx cy r))%M.

Definition ARC_try (center : attr (list R))
  (radius start_angle end_angle : attr R)
  (approx_segs : Z) (parent_transform : option transform) : M unit :=
  (c <- lift center ;; cx <- lift (getitem c 0) ;;
   c <- lift center ;; cy <- lift (getitem c 1) ;;
   r <- lift radius ;;
   sa <- lift start_angle ;;
   ea <- lift end_angle ;;
   match parent_transform with
   | Some tr =>
       pts <- lift (sample_arc 0 0 r sa ea (Some approx_segs)) ;;
       pts <- lift (recentre_and_transform cx cy tr pts) ;;
       out_append (polyline pts)
   | None =>
       pts <- lift (sample_arc cx cy r sa ea (Some approx_segs)) ;;
       out_append (polyline pts)
   end ;;
   out_append (arc cx cy r sa ea))%M.

Definition ELLIPSE_try (center major_axis : attr (list R)) (ratio : attr R)
  (approx_segs : Z) (parent_transform : option transform) : M unit :=
  (pts <- lift (c <- center ;; cx <- getitem c 0 ;;
                c <- center ;; cy <- getitem c 1 ;;
                maj <- major_axis ;;
                m0 <- getitem maj 0 ;;
                m1 <- getitem maj 1 ;;
                let rx := hypot m0 m1 in
                ratio <- ratio ;;
                let ry := rx * ratio in
                pts <- ellipse_points cx cy rx ry approx_segs ;;
                transform_all parent_transform pts)%result ;;
   out_append (polyline pts))%M.

Definition SPLINE_try (fit_points control_points : attr (list (list R)))
  (approx_segs : Z) (parent_transform : option transform) : M unit :=
  (pts <- spline_to_poly fit_points control_points (Some approx_segs) ;;
   pts <- lift (transform_all parent_transform pts) ;;
   if truthy pts then out_append (polyline pts) else ret tt)%M.

(** [process] is the recursive call [process_entity(be, out, approx_segs,
    explode_blocks, verbose, doc, parent_transform=...)]. *)
Definition INSERT_try (process : entity -> option transform -> M unit)
  (name : attr string) (insert : attr (list R))
  (xscale yscale rotation : attr R) (verbose : bool) (doc : document)
  : M unit :=
  (name <- lift name ;;
   i <- lift insert ;; i0 <- lift (getitem i 0) ;;
   i <- lift insert ;; i1 <- lift (getitem i 1) ;;
   let insert_pt := [i0; i1] in
   sx <- lift (getattr xscale 1) ;;
   sy <- lift (getattr yscale 1) ;;
   rotation <- lift (getattr rotation 0) ;;
   when verbose (print (Expanding_INSERT name insert_pt sx sy rotation)) ;;
   match blocks_get (blocks doc) name with
   | None => print (Warning ("Block '" ++ name ++ "' not found.") None)
   | Some blk =>
       for_each blk
         (fun be => process be (Some (insert_pt, sx, sy, rotation)))
   end)%M.

(** [except Exception as ex: print("Warning: <what>: " + str(ex))] *)
Definition warn (what : string) (ex : exn) : M unit :=
  print (Warning what (Some ex)).

(** [depth] is the number of nested activations of [process_entity]
    the interpreter still allows; one that would exceed it raises
    [RecursionError] in the caller. *)
Fixpoint process_entity (depth : nat) (e : entity) (approx_segs : Z)
  (explode_blocks verbose : bool) (doc : document)
  (parent_transform : option transform) {struct depth} : M unit :=
  match depth with
  | O => lift (Raise RecursionError)
  | S depth' =>
      let t := dxftype e in
      (when verbose (print (Processing_entity t)) ;;
       match e with
       | LINE start end_ =>
           try_except (LINE_try start end_ parent_transform)
                      (warn "LINE processing error")
       | LWPOLYLINE get_points =>
           try_except (LWPOLYLINE_try get_points parent_transform)
                      (warn "LWPOLYLINE error")
       | POLYLINE vertices =>
           try_except (POLYLINE_try vertices parent_transform)
                      (warn "POLYLINE error")
       | CIRCLE center radius =>
           try_except (CIRCLE_try center radius approx_segs parent_transform)
                      (warn "CIRCLE error")
       | ARC center radius start_angle end_angle =>
           try_except (ARC_try center radius start_angle end_angle
                               approx_segs parent_transform)
                      (warn "ARC error")
       | ELLIPSE center major_axis ratio =>
           try_except (ELLIPSE_try center major_axis ratio
                                   approx_segs parent_transform)
                      (warn "ELLIPSE error")
       | SPLINE fit_points control_points =>
           try_except (SPLINE_try fit_points control_points
                                  approx_segs parent_transform)
                      (warn "SPLINE error")
       | INSERT name insert xscale yscale rotation =>
           if explode_blocks then
             try_except
               (INSERT_try
                  (fun be tr => process_entity depth' be approx_segs
                                  explode_blocks verbose doc tr)
                  name insert xscale yscale rotation verbose doc)
               (warn "INSERT expansion failed")
           else when verbose (print (Ignored_entity_type t))
       | OTHER _ => when verbose (print (Ignored_entity_type t))
       end)%M
  end.

(** ** main *)

Record args : Type := mkArgs
  { args_approx_segs : Z;
    args_explode_inserts : bool;
    args_verbose : bool }.

(** [parser.parse_args()]: [--approx-segs] defaults to 36, the two
    flags to [False]. *)
Definition parse_args (approx_segs : option Z) (explode_inserts verbose : bool)
  : args :=
  mkArgs (kwarg 36%Z approx_segs) explode_inserts verbose.

(** The loop over [modelspace]. *)
Definition main_loop (depth : nat) (entities : list entity) (a : args)
  (doc : document) : M unit :=
  for_each entities
    (fun e =>
       try_except
         (process_entity depth e (args_approx_segs a) (args_explode_inserts a)
                         (args_verbose a) doc None)
         (warn ("failed to process top-level entity " ++ dxftype e))).

(** [main] from [out = []] to the list handed to [json.dump]. *)
Definition main (depth : nat) (a : args) (doc : document) : world :=
  snd (main_loop depth (modelspace doc) a doc (mkWorld [] [])).

(** ** Observing a computation *)

Definition empty_world : world := mkWorld [] [].

(** What [c] appends to [out] and prints when run on its own. *)
Definition emitted {A : Type} (c : M A) : list record :=
  out (snd (c empty_world)).

Definition printed {A : Type} (c : M A) : list message :=
  stderr (snd (c empty_world)).

Definition outcome {A : Type} (c : M A) : result A :=
  fst (c empty_world).

Definition extend (w d : world) : world :=
  mkWorld (out w ++ out d) (stderr w ++ stderr d).

(** [c] only appends: on any world it does what it does on the empty
    one, after what is already there. *)
Definition appends {A : Type} (c : M A) : Prop :=
  forall w, c w = (outcome c, extend w (snd (c empty_world))).

Definition is_warning (m : message) : bool :=
  match m with
  | Warning _ _ => true
  | _ => false
  end.

(** The angles at which [sample_circle] and [sample_arc] place their
    points. *)
Definition circle_angles (segments : Z) : list R :=
  if (1 <=? segments)%Z
  then map (fun i => 2 * PI * IZR i / IZR segments) (range segments) ++ [0]
  else [].

(** ** Internal failure of an entity *)

(** The body of the [try] in the branch that [process_entity] takes for
    [e], for the branches that have one. *)
Definition try_body (process : entity -> option transform -> M unit)
  (e : entity) (approx_segs : Z) (explode_blocks verbose : bool)
  (doc : document) (parent_transform : option transform) : option (M unit) :=
  match e with
  | LINE start end_ => Some (LINE_try start end_ parent_transform)
  | LWPOLYLINE get_points => Some (LWPOLYLINE_try get_points parent_transform)
  | POLYLINE vertices => Some (POLYLINE_try vertices parent_transform)
  | CIRCLE center radius =>
      Some (CIRCLE_try center radius approx_segs parent_transform)
  | ARC center radius start_angle end_angle =>
      Some (ARC_try center radius start_angle end_angle approx_segs
                    parent_transform)
  | ELLIPSE center major_axis ratio =>
      Some (ELLIPSE_try center major_axis ratio approx_segs parent_transform)
  | SPLINE fit_points control_points =>
      Some (SPLINE_try fit_points control_points approx_segs parent_transform)
  | INSERT name insert xscale yscale rotation =>
      if explode_blocks
      then Some (INSERT_try process name insert xscale yscale rotation verbose doc)
      else None
  | OTHER _ => None
  end.

(** The three ways the normalisation of [e] fails inside
    [process_entity (S d)]: the [try] body of its branch raises; it is
    a block instance, expanded, whose block is not in the table; it is
    a spline that [spline_to_poly] cannot approximate. *)
Inductive fails_internally (d : nat) (e : entity) (approx_segs : Z)
  (explode_blocks verbose : bool) (doc : document)
  (parent_transform : option transform) : Prop :=
| handler_raises (body : M unit) (ex : exn) :
    try_body (fun be tr => process_entity d be approx_segs explode_blocks
                             verbose doc tr)
             e approx_segs explode_blocks verbose doc parent_transform
    = Some body ->
    outcome body = Raise ex ->
    fails_internally d e approx_segs explode_blocks verbose doc parent_transform
| block_missing (name : attr string) (insert : attr (list R))
                (xscale yscale rotation : attr R)
                (nm : string) (ins : list R) (ix iy sx sy rot : R) :
    e = INSERT name insert xscale yscale rotation ->
    explode_blocks = true ->
    name = Ok nm -> insert = Ok ins ->
    getitem ins 0 = Ok ix -> getitem ins 1 = Ok iy ->
    getattr xscale 1 = Ok sx -> getattr yscale 1 = Ok sy ->
    getattr rotation 0 = Ok rot ->
    blocks_get (blocks doc) nm = None ->
    fails_internally d e approx_segs explode_blocks verbose doc parent_transform
| spline_not_approximated (fit_points control_points : attr (list (list R)))
                          (ex : exn) :
    e = SPLINE fit_points control_points ->
    spline_to_poly_try fit_points control_points approx_segs = Raise ex ->
    fails_internally d e approx_segs explode_blocks verbose doc parent_transform.

(** * The specification's wording

    Definitions that follow the words of the specification; the
    properties below compare them with the code above. *)

(** The point of the ellipse with centre [(cx, cy)] and radii [rx],
    [ry] at parameter [t] (a circle when [rx = ry]). *)
Definition point_at (cx cy rx ry t : R) : list R :=
  [cx + rx * cos t; cy + ry * sin t].

(** Scale each axis independently. *)
Definition scale_spec (sx sy : R) (p : R * R) : R * R :=
  (sx * fst p, sy * snd p).

(** The standard 2-D rotation matrix, degrees converted to radians. *)
Definition rotate_spec (deg : R) (p : R * R) : R * R :=
  let a := deg * PI / 180 in
  (cos a * fst p - sin a * snd p, sin a * fst p + cos a * snd p).

(** Add the translation. *)
Definition translate_spec (tx ty : R) (p : R * R) : R * R :=
  (fst p + tx, snd p + ty).

Definition apply_spec (sx sy deg tx ty : R) (p : R * R) : R * R :=
  translate_spec tx ty (rotate_spec deg (scale_spec sx sy p)).

(** [endDeg] treated as [endDeg + 360] when [endDeg < startDeg]. *)
Definition adjusted_end (startDeg endDeg : R) : R :=
  if Rlt_dec endDeg startDeg then endDeg + 360 else endDeg.

(** The angle, in degrees, of sample [i] of [segments]: linear
    interpolation from [startDeg] to the adjusted [endDeg]. *)
Definition arc_angle (startDeg endDeg : R) (segments i : Z) : R :=
  startDeg + (adjusted_end startDeg endDeg - startDeg) * (IZR i / IZR segments).

Definition arc_angles (startDeg endDeg : R) (segments : Z) : list R :=
  map (fun i => radians (arc_angle startDeg endDeg segments i))
      (range (segments + 1)).

Definition sampleArc_spec (cx cy r startDeg endDeg : R) (segments : Z)
  : list (list R) :=
  map (fun i => point_at cx cy r r (radians (arc_angle startDeg endDeg segments i)))
      (range (segments + 1)).

(** Points at [2 pi i / segments] for [i] in [[0, segments)], then a
    duplicate of the first. *)
Definition sampleCircle_spec (cx cy r : R) (segments : Z) : list (list R) :=
  map (fun i => point_at cx cy r r (2 * PI * IZR i / IZR segments))
      (range segments)
  ++ [point_at cx cy r r 0].

(** Exactly [segments] points at [2 pi i / segments]. *)
Definition sampleEllipse_spec (cx cy : R) (major_axis : R * R) (ratio : R)
  (segments : Z) : list (list R) :=
  let radiusX := sqrt (fst major_axis * fst major_axis
                       + snd major_axis * snd major_axis) in
  let radiusY := radiusX * ratio in
  map (fun i => point_at cx cy radiusX radiusY (2 * PI * IZR i / IZR segments))
      (range segments).

(** * Shapes of points and of the output *)

(** Every point of a polyline record has exactly two coordinates. *)
Definition flat_record (rec : record) : Prop :=
  match rec with
  | polyline pts => Forall (fun p => List.length p = 2%nat) pts
  | _ => True
  end.

(** Every exact circle or arc record comes right after a polyline
    record. *)
Inductive paired : list record -> Prop :=
| paired_nil : paired []
| paired_polyline pts rest :
    paired rest -> paired (polyline pts :: rest)
| paired_circle pts cx cy r rest :
    paired rest -> paired (polyline pts :: circle cx cy r :: rest)
| paired_arc pts cx cy r sa ea rest :
    paired rest -> paired (polyline pts :: arc cx cy r sa ea :: rest).

Definition is_INSERT (e : entity) : bool :=
  match e with
  | INSERT _ _ _ _ _ => true
  | _ => false
  end.

Definition is_SPLINE (e : entity) : bool :=
  match e with
  | SPLINE _ _ => true
  | _ => false
  end.

(** Two computations return the same result and append the same
    records (they may print differently). *)
Definition same_records {A : Type} (c c' : M A) : Prop :=
  outcome c = outcome c' /\ emitted c = emitted c'.

(** * Properties *)

(** ** Lists, ranges and comprehensions *)

Lemma mapM_map {A B : Type} (f : A -> result B) (g : A -> B) (l : list A) :
  (forall x, In x l -> f x = Ok (g x)) -> mapM f l = Ok (map g l).
Proof.
  induction l as [|x xs IH]; intros Hf; simpl.
  - reflexivity.
  - rewrite (Hf x (or_introl eq_refl)); simpl.
    rewrite IH by (intros y Hy; apply Hf; right; exact Hy).
    reflexivity.
Qed.

Lemma mapM_length {A B : Type} (f : A -> result B) (l : list A) (l' : list B) :
  mapM f l = Ok l' -> List.length l' = List.length l.
Proof.
  revert l'; induction l as [|x xs IH]; intros l'; simpl.
  - intros H; inversion H; reflexivity.
  - destruct (f x) as [y|ex]; simpl; [|discriminate].
    destruct (mapM f xs) as [ys|ex]; simpl; [|discriminate].
    intros H; inversion H; subst; simpl.
    f_equal; apply IH; reflexivity.
Qed.

Lemma range_length (n : Z) : List.length (range n) = Z.to_nat n.
Proof. unfold range. rewrite length_map, length_seq. reflexivity. Qed.

Lemma range_nonpos (n : Z) : (n <= 0)%Z -> range n = [].
Proof.
  intros H. unfold range.
  replace (Z.to_nat n) with 0%nat by lia. reflexivity.
Qed.

Lemma range_In (n i : Z) : In i (range n) -> (0 <= i < n)%Z.
Proof.
  unfold range. rewrite in_map_iff.
  intros [k [<- Hk]]. apply in_seq in Hk. lia.
Qed.

Lemma range_nth_error (n : Z) (k : nat) :
  (k < Z.to_nat n)%nat -> nth_error (range n) k = Some (Z.of_nat k).
Proof.
  intros Hk. unfold range.
  rewrite nth_error_map, nth_error_seq.
  destruct (Nat.ltb_spec k (Z.to_nat n)); [reflexivity | lia].
Qed.

Lemma range_succ (n : Z) : (0 <= n)%Z -> range (n + 1) = range n ++ [n].
Proof.
  intros Hn. unfold range.
  replace (Z.to_nat (n + 1)) with (S (Z.to_nat n)) by lia.
  rewrite seq_S, map_app. simpl.
  rewrite Z2Nat.id by exact Hn. reflexivity.
Qed.

Lemma range_pos_head (n : Z) :
  (1 <= n)%Z -> exists tl, range n = 0%Z :: tl.
Proof.
  intros Hn. unfold range.
  destruct (Z.to_nat n) as [|k] eqn:E; [lia|].
  simpl. eexists; reflexivity.
Qed.

Lemma truediv_nonzero (x : R) (n : Z) : n <> 0%Z -> truediv x n = Ok (x / IZR n).
Proof.
  intros Hn. unfold truediv.
  destruct (Z.eqb_spec n 0); [contradiction | reflexivity].
Qed.

(** ** Trigonometry *)

Lemma radians_lt (a b : R) : radians a < radians b <-> a < b.
Proof.
  unfold radians. pose proof PI_RGT_0 as HPI.
  split; intros H; nra.
Qed.

Lemma radians_turn (a : R) : radians (a + 360) = radians a + 2 * PI.
Proof. unfold radians. field. Qed.

(** ** Affine placement (C4) *)

Lemma transform_point_xy (x y ix iy sx sy rotation : R) :
  transform_point [x; y] [ix; iy] sx sy rotation =
  Ok [x * sx * cos (radians rotation) - y * sy * sin (radians rotation) + ix;
      x * sx * sin (radians rotation) + y * sy * cos (radians rotation) + iy].
Proof. reflexivity. Qed.

(** C4. [transform_point] scales each axis independently, rotates the
    scaled point about the origin by the rotation in degrees (standard
    rotation matrix, degrees converted to radians) and then adds the
    translation; with scale (2, 1), rotation 90 and translation (5, 5)
    the point (1, 0) goes to (5, 7). *)
Theorem transform_point_scale_rotate_translate :
  (forall x y tx ty sx sy deg,
      transform_point [x; y] [tx; ty] sx sy deg =
      Ok [fst (apply_spec sx sy deg tx ty (x, y));
          snd (apply_spec sx sy deg tx ty (x, y))])
  /\ transform_point [1; 0] [5; 5] 2 1 90 = Ok [5; 7].
Proof.
  split.
  - intros x y tx ty sx sy deg.
    rewrite transform_point_xy.
    unfold apply_spec, translate_spec, rotate_spec, scale_spec, radians; simpl.
    replace (deg * (PI / 180)) with (deg * PI / 180) by field.
    do 2 f_equal; [ring | f_equal; ring].
  - rewrite transform_point_xy. unfold radians.
    replace (90 * (PI / 180)) with (PI / 2) by field.
    rewrite cos_PI2, sin_PI2.
    do 2 f_equal; [ring | f_equal; ring].
Qed.

(** ** sample_circle (C6) *)

Lemma sample_circle_loop (cx cy r : R) (n : Z) :
  mapM (fun i =>
          t <- truediv (2 * PI * IZR i) n ;;
          Ok [cx + r * cos t; cy + r * sin t])
       (range n)
  = Ok (map (fun i => point_at cx cy r r (2 * PI * IZR i / IZR n)) (range n)).
Proof.
  apply mapM_map. intros i Hi. apply range_In in Hi.
  rewrite truediv_nonzero by lia. reflexivity.
Qed.

Lemma turn_fraction_0 (n : Z) : (1 <= n)%Z -> 2 * PI * IZR 0 / IZR n = 0.
Proof.
  intros Hn. assert (IZR n <> 0) by (apply not_0_IZR; lia).
  field. assumption.
Qed.

Lemma sample_circle_pos (cx cy r : R) (n : Z) :
  (1 <= n)%Z -> sample_circle cx cy r (Some n) = Ok (sampleCircle_spec cx cy r n).
Proof.
  intros Hn. unfold sample_circle, sampleCircle_spec, kwarg.
  rewrite sample_circle_loop. simpl bind.
  destruct (range_pos_head n Hn) as [tl ->]. simpl.
  rewrite (turn_fraction_0 n Hn). reflexivity.
Qed.

Lemma sample_circle_nonpos (cx cy r : R) (n : Z) :
  (n <= 0)%Z -> sample_circle cx cy r (Some n) = Ok [].
Proof.
  intros Hn. unfold sample_circle, kwarg.
  rewrite (range_nonpos n Hn). reflexivity.
Qed.

Lemma sampleCircle_spec_length (cx cy r : R) (n : Z) :
  List.length (sampleCircle_spec cx cy r n) = S (Z.to_nat n).
Proof.
  unfold sampleCircle_spec.
  rewrite length_app, length_map, range_length. simpl. lia.
Qed.

Lemma sampleCircle_spec_first (cx cy r : R) (n : Z) :
  (1 <= n)%Z ->
  nth_error (sampleCircle_spec cx cy r n) 0 = Some (point_at cx cy r r 0).
Proof.
  intros Hn. unfold sampleCircle_spec.
  destruct (range_pos_head n Hn) as [tl ->]. simpl.
  rewrite (turn_fraction_0 n Hn). reflexivity.
Qed.

Lemma sampleCircle_spec_last (cx cy r : R) (n : Z) :
  nth_error (sampleCircle_spec cx cy r n) (Z.to_nat n)
  = Some (point_at cx cy r r 0).
Proof.
  unfold sampleCircle_spec.
  rewrite nth_error_app2 by (rewrite length_map, range_length; lia).
  rewrite length_map, range_length, Nat.sub_diag. reflexivity.
Qed.

Lemma point_at_unit_0 : point_at 0 0 1 1 0 = [1; 0].
Proof.
  unfold point_at. rewrite cos_0, sin_0.
  do 2 f_equal; [ring | f_equal; ring].
Qed.

(** C6, the sentence on [segments = 0] as the specification has it,
    refuted: with no segments the loop appends nothing and the guard
    [len(pts) > 0] keeps the list empty, so the result is not a single
    point. *)
Lemma sample_circle_zero_segments_not_single_point :
  sample_circle 0 0 1 (Some 0%Z) = Ok []
  /\ ~ (exists p, sample_circle 0 0 1 (Some 0%Z) = Ok [p]).
Proof.
  split.
  - reflexivity.
  - intros [p Hp]. rewrite sample_circle_nonpos in Hp by lia. discriminate.
Qed.

(** C6, amended.  With [segments >= 1], [sample_circle] returns the
    points at angles [2 pi i / segments] for [i] in [[0, segments)]
    followed by a duplicate of the first: [segments + 1] points, the
    first equal to the last.  With [segments = 0] it returns the empty
    list.  [sample_circle(0, 0, 1, 48)] has 49 points and its points 0
    and 48 are both exactly (1, 0). *)
Theorem sample_circle_closed_loop :
  (forall cx cy r n,
      (1 <= n)%Z ->
      exists pts,
        sample_circle cx cy r (Some n) = Ok pts
        /\ pts = sampleCircle_spec cx cy r n
        /\ List.length pts = S (Z.to_nat n)
        /\ nth_error pts 0 = nth_error pts (Z.to_nat n)
        /\ nth_error pts 0 = Some (point_at cx cy r r 0))
  /\ (forall cx cy r, sample_circle cx cy r (Some 0%Z) = Ok [])
  /\ (exists pts,
        sample_circle 0 0 1 (Some 48%Z) = Ok pts
        /\ List.length pts = 49%nat
        /\ nth_error pts 0 = Some [1; 0]
        /\ nth_error pts 48 = Some [1; 0]).
Proof.
  split; [|split].
  - intros cx cy r n Hn.
    exists (sampleCircle_spec cx cy r n).
    rewrite sample_circle_pos by exact Hn.
    rewrite sampleCircle_spec_length, sampleCircle_spec_last.
    rewrite sampleCircle_spec_first by exact Hn.
    repeat split; reflexivity.
  - intros cx cy r. apply sample_circle_nonpos. lia.
  - exists (sampleCircle_spec 0 0 1 48).
    rewrite sample_circle_pos by lia.
    rewrite sampleCircle_spec_length.
    rewrite sampleCircle_spec_first by lia.
    change 48%nat with (Z.to_nat 48).
    rewrite sampleCircle_spec_last, point_at_unit_0.
    repeat split; reflexivity.
Qed.

Lemma sample_circle_closed_loop_witness :
  (1 <= 4)%Z
  /\ exists pts,
       sample_circle 2 3 5 (Some 4%Z) = Ok pts
       /\ pts = sampleCircle_spec 2 3 5 4
       /\ List.length pts = S (Z.to_nat 4)
       /\ nth_error pts 0 = nth_error pts (Z.to_nat 4)
       /\ nth_error pts 0 = Some (point_at 2 3 5 5 0).
Proof.
  split; [lia | apply (proj1 sample_circle_closed_loop); lia].
Defined.

(** ** sample_arc (C5) *)

Lemma radians_adjusted_end (s e : R) :
  (if Rlt_dec (radians e) (radians s) then radians e + 2 * PI else radians e)
  = radians (adjusted_end s e).
Proof.
  unfold adjusted_end.
  destruct (Rlt_dec (radians e) (radians s)) as [H|H];
    destruct (Rlt_dec e s) as [H'|H']; try reflexivity.
  - symmetry; apply radians_turn.
  - exfalso. apply H'. apply (proj1 (radians_lt e s)). exact H.
  - exfalso. apply H. apply (proj2 (radians_lt e s)). exact H'.
Qed.

Lemma sample_arc_nonzero (cx cy r s e : R) (n : Z) :
  n <> 0%Z ->
  sample_arc cx cy r s e (Some n) = Ok (sampleArc_spec cx cy r s e n).
Proof.
  intros Hn. unfold sample_arc, sampleArc_spec, kwarg.
  rewrite radians_adjusted_end.
  apply mapM_map. intros i _.
  rewrite truediv_nonzero by exact Hn. simpl bind.
  unfold point_at, arc_angle, radians.
  do 2 f_equal; [|f_equal]; do 3 f_equal; ring.
Qed.

Lemma sample_arc_zero (cx cy r s e : R) :
  sample_arc cx cy r s e (Some 0%Z) = Raise ZeroDivisionError.
Proof. reflexivity. Qed.















(** ** Computations only append *)

Lemma extend_empty_l (d : world) : extend empty_world d = d.
Proof. destruct d; reflexivity. Qed.

Lemma extend_empty_r (w : world) : extend w empty_world = w.
Proof.
  destruct w as [o s]; unfold extend; simpl.
  rewrite !app_nil_r. reflexivity.
Qed.

Lemma extend_assoc (w d d' : world) :
  extend (extend w d) d' = extend w (extend d d').
Proof. unfold extend; simpl. rewrite !app_assoc. reflexivity. Qed.

Lemma appends_ret {A : Type} (a : A) : appends (ret a).
Proof. intros w. unfold ret, outcome; simpl. rewrite extend_empty_r. reflexivity. Qed.

Lemma appends_lift {A : Type} (r : result A) : appends (lift r).
Proof. intros w. unfold lift, outcome; simpl. rewrite extend_empty_r. reflexivity. Qed.

Lemma appends_print (m : message) : appends (print m).
Proof.
  intros w. unfold print, outcome, extend; simpl.
  rewrite app_nil_r. reflexivity.
Qed.

Lemma appends_out_append (rec : record) : appends (out_append rec).
Proof.
  intros w. unfold out_append, outcome, extend; simpl.
  rewrite app_nil_r. reflexivity.
Qed.

Lemma appends_bindM {A B : Type} (c : M A) (k : A -> M B) :
  appends c -> (forall a, appends (k a)) -> appends (bindM c k).
Proof.
  intros Hc Hk w. unfold outcome, bindM.
  rewrite (Hc w). unfold outcome.
  destruct (c empty_world) as [[a|ex] d]; simpl.
  - rewrite (Hk a (extend w d)), (Hk a d). unfold outcome; simpl.
    rewrite extend_assoc. reflexivity.
  - reflexivity.
Qed.

Lemma appends_try_except {A : Type} (body : M A) (handler : exn -> M A) :
  appends body -> (forall ex, appends (handler ex)) ->
  appends (try_except body handler).
Proof.
  intros Hb Hh w. unfold outcome, try_except.
  rewrite (Hb w). unfold outcome.
  destruct (body empty_world) as [[a|ex] d]; simpl.
  - reflexivity.
  - rewrite (Hh ex (extend w d)), (Hh ex d). unfold outcome; simpl.
    rewrite extend_assoc. reflexivity.
Qed.

Lemma appends_when (b : bool) (c : M unit) : appends c -> appends (when b c).
Proof. intros Hc. destruct b; [exact Hc | apply appends_ret]. Qed.

Lemma appends_for_each {A : Type} (l : list A) (body : A -> M unit) :
  (forall x, appends (body x)) -> appends (for_each l body).
Proof.
  intros Hb. induction l as [|x xs IH]; simpl.
  - apply appends_ret.
  - apply appends_bindM; [apply Hb | intros _; exact IH].
Qed.

Ltac appends_step :=
  first
    [ assumption
    | apply appends_ret
    | apply appends_lift
    | apply appends_print
    | apply appends_out_append
    | apply appends_when
    | apply appends_bindM; [| intros ?]
    | apply appends_try_except; [| intros ?]
    | apply appends_for_each; intros ?
    | match goal with
      | |- appends (match ?x with _ => _ end) => destruct x
      end ].

Ltac appends_auto := repeat appends_step.

Lemma spline_to_poly_appends fit_points control_points segments :
  appends (spline_to_poly fit_points control_points segments).
Proof. unfold spline_to_poly. appends_auto. Qed.

Lemma INSERT_try_appends process name insert xscale yscale rotation verbose doc :
  (forall be tr, appends (process be tr)) ->
  appends (INSERT_try process name insert xscale yscale rotation verbose doc).
Proof.
  intros Hp. unfold INSERT_try. appends_auto. apply Hp.
Qed.

Lemma LINE_try_appends start end_ pt : appends (LINE_try start end_ pt).
Proof. unfold LINE_try. appends_auto. Qed.

Lemma LWPOLYLINE_try_appends get_points pt :
  appends (LWPOLYLINE_try get_points pt).
Proof. unfold LWPOLYLINE_try. appends_auto. Qed.

Lemma POLYLINE_try_appends vertices pt : appends (POLYLINE_try vertices pt).
Proof. unfold POLYLINE_try. appends_auto. Qed.

Lemma CIRCLE_try_appends center radius segs pt :
  appends (CIRCLE_try center radius segs pt).
Proof. unfold CIRCLE_try. appends_auto. Qed.

Lemma ARC_try_appends center radius sa ea segs pt :
  appends (ARC_try center radius sa ea segs pt).
Proof. unfold ARC_try. appends_auto. Qed.

Lemma ELLIPSE_try_appends center major_axis ratio segs pt :
  appends (ELLIPSE_try center major_axis ratio segs pt).
Proof. unfold ELLIPSE_try. appends_auto. Qed.

Lemma SPLINE_try_appends fit_points control_points segs pt :
  appends (SPLINE_try fit_points control_points segs pt).
Proof.
  unfold SPLINE_try.
  apply appends_bindM; [apply spline_to_poly_appends | intros ?].
  appends_auto.
Qed.

Lemma process_entity_appends depth :
  forall e approx_segs explode_blocks verbose doc parent_transform,
    appends (process_entity depth e approx_segs explode_blocks verbose doc
                            parent_transform).
Proof.
  induction depth as [|d IH]; intros e segs explode verbose doc pt.
  - apply appends_lift.
  - cbn [process_entity].
    apply appends_bindM; [appends_auto | intros _].
    destruct e; unfold warn;
      try (apply appends_try_except; [| intros ?; apply appends_print]).
    + apply LINE_try_appends.
    + apply LWPOLYLINE_try_appends.
    + apply POLYLINE_try_appends.
    + apply CIRCLE_try_appends.
    + apply ARC_try_appends.
    + apply ELLIPSE_try_appends.
    + apply SPLINE_try_appends.
    + destruct explode.
      * apply appends_try_except; [| intros ?; apply appends_print].
        apply INSERT_try_appends. intros be tr. apply IH.
      * appends_auto.
    + appends_auto.
Qed.

(** ** Handlers return; loops concatenate *)

Lemma try_except_warn_returns (body : M unit) (what : string) (w : world) :
  fst (try_except body (warn what) w) = Ok tt.
Proof.
  unfold try_except.
  destruct (body w) as [[[]|ex] w']; reflexivity.
Qed.

Lemma process_entity_returns d e approx_segs explode_blocks verbose doc pt w :
  fst (process_entity (S d) e approx_segs explode_blocks verbose doc pt w) = Ok tt.
Proof.
  cbn [process_entity]. unfold bindM.
  destruct (when verbose (print (Processing_entity (dxftype e))) w)
    as [[[]|ex] w'] eqn:Hw.
  - destruct e; try apply try_except_warn_returns.
    + destruct explode_blocks; [apply try_except_warn_returns|].
      destruct verbose; reflexivity.
    + destruct verbose; reflexivity.
  - destruct verbose; discriminate.
Qed.

Lemma outcome_any_world {A : Type} (c : M A) (w : world) :
  appends c -> fst (c w) = outcome c.
Proof. intros Hc. rewrite (Hc w). reflexivity. Qed.

Lemma out_any_world {A : Type} (c : M A) (w : world) :
  appends c -> out (snd (c w)) = out w ++ emitted c.
Proof. intros Hc. rewrite (Hc w). reflexivity. Qed.

Lemma stderr_any_world {A : Type} (c : M A) (w : world) :
  appends c -> stderr (snd (c w)) = stderr w ++ printed c.
Proof. intros Hc. rewrite (Hc w). reflexivity. Qed.

Lemma for_each_returns {A : Type} (l : list A) (body : A -> M unit) :
  (forall x w, fst (body x w) = Ok tt) ->
  forall w, fst (for_each l body w) = Ok tt.
Proof.
  intros Hb. induction l as [|x xs IH]; intros w; simpl.
  - reflexivity.
  - unfold bindM. specialize (Hb x w).
    destruct (body x w) as [[[]|ex] w']; simpl in Hb; [apply IH | discriminate].
Qed.

Lemma for_each_out {A : Type} (l : list A) (body : A -> M unit) :
  (forall x, appends (body x)) ->
  (forall x w, fst (body x w) = Ok tt) ->
  forall w,
    out (snd (for_each l body w))
    = out w ++ flat_map (fun x => emitted (body x)) l.
Proof.
  intros Ha Hb. induction l as [|x xs IH]; intros w; simpl.
  - rewrite app_nil_r. reflexivity.
  - unfold bindM. pose proof (Hb x w) as Hx.
    pose proof (out_any_world (body x) w (Ha x)) as Ho.
    destruct (body x w) as [[[]|ex] w']; simpl in Hx, Ho; [|discriminate].
    rewrite IH, Ho, app_assoc. reflexivity.
Qed.

Lemma flat_map_without {A B : Type} (f : A -> list B) (before after : list A) (x : A) :
  f x = [] ->
  flat_map f (before ++ x :: after) = flat_map f (before ++ after).
Proof.
  intros Hx. rewrite !flat_map_app. simpl. rewrite Hx. reflexivity.
Qed.

(** ** Block instances (C2) *)

Lemma process_entity_INSERT_ignores_parent d name insert xscale yscale rotation
      approx_segs explode_blocks verbose doc pt pt' :
  process_entity d (INSERT name insert xscale yscale rotation)
                 approx_segs explode_blocks verbose doc pt
  = process_entity d (INSERT name insert xscale yscale rotation)
                   approx_segs explode_blocks verbose doc pt'.
Proof. destruct d; reflexivity. Qed.

Lemma process_entity_INSERT_explode d name insert xscale yscale rotation
      approx_segs verbose doc pt :
  process_entity (S d) (INSERT name insert xscale yscale rotation)
                 approx_segs true verbose doc pt
  = (when verbose (print (Processing_entity "INSERT")) ;;
     try_except
       (INSERT_try
          (fun be tr => process_entity d be approx_segs true verbose doc tr)
          name insert xscale yscale rotation verbose doc)
       (warn "INSERT expansion failed"))%M.
Proof. reflexivity. Qed.

Lemma INSERT_try_found process name insert xscale yscale rotation verbose doc
      nm ins ix iy sx sy rot blk w :
  name = Ok nm -> insert = Ok ins ->
  getitem ins 0 = Ok ix -> getitem ins 1 = Ok iy ->
  getattr xscale 1 = Ok sx -> getattr yscale 1 = Ok sy ->
  getattr rotation 0 = Ok rot ->
  blocks_get (blocks doc) nm = Some blk ->
  INSERT_try process name insert xscale yscale rotation verbose doc w
  = for_each blk (fun be => process be (Some ([ix; iy], sx, sy, rot)))
      (snd (when verbose (print (Expanding_INSERT nm [ix; iy] sx sy rot)) w)).
Proof.
  intros -> -> Hix Hiy Hsx Hsy Hrot Hblk.
  unfold INSERT_try, bindM, lift.
  rewrite Hix, Hiy, Hsx, Hsy, Hrot, Hblk.
  destruct verbose; reflexivity.
Qed.

Lemma process_entity_INSERT_out
      d name insert xscale yscale rotation approx_segs verbose doc
      nm ins ix iy sx sy rot blk pt w :
  name = Ok nm -> insert = Ok ins ->
  getitem ins 0 = Ok ix -> getitem ins 1 = Ok iy ->
  getattr xscale 1 = Ok sx -> getattr yscale 1 = Ok sy ->
  getattr rotation 0 = Ok rot ->
  blocks_get (blocks doc) nm = Some blk ->
  out (snd (process_entity (S (S d)) (INSERT name insert xscale yscale rotation)
                           approx_segs true verbose doc pt w))
  = out w ++ flat_map (fun be => emitted (process_entity (S d) be approx_segs true
                                            verbose doc
                                            (Some ([ix; iy], sx, sy, rot))))
                      blk.
Proof.
  intros Hname Hins Hix Hiy Hsx Hsy Hrot Hblk.
  rewrite process_entity_INSERT_explode. unfold bindM at 1.
  set (w1 := snd (when verbose (print (Processing_entity "INSERT")) w)).
  assert (Hw1 : when verbose (print (Processing_entity "INSERT")) w = (Ok tt, w1)
          /\ out w1 = out w).
  { unfold w1. destruct verbose; split; reflexivity. }
  destruct Hw1 as [-> Ho1].
  unfold try_except.
  rewrite (INSERT_try_found _ _ _ _ _ _ _ _ nm ins ix iy sx sy rot blk w1);
    try assumption.
  set (w2 := snd (when verbose (print (Expanding_INSERT nm [ix; iy] sx sy rot)) w1)).
  assert (Ho2 : out w2 = out w1) by (unfold w2; destruct verbose; reflexivity).
  set (body := fun be => process_entity (S d) be approx_segs true verbose doc
                           (Some ([ix; iy], sx, sy, rot))).
  assert (Hret : forall be w', fst (body be w') = Ok tt)
    by (intros; apply process_entity_returns).
  assert (Happ : forall be, appends (body be))
    by (intros; apply process_entity_appends).
  pose proof (for_each_returns blk body Hret w2) as Hr.
  pose proof (for_each_out blk body Happ Hret w2) as Ho.
  destruct (for_each blk body w2) as [[[]|ex] w3]; simpl in Hr, Ho;
    [|discriminate].
  simpl. rewrite Ho, Ho2, Ho1. reflexivity.
Qed.

(** C2. A block instance expanded while another transform is active
    has the entities of its block normalised under its own placement
    [(insertion point, xscale, yscale, rotation)] alone: the transform
    of the call site does not enter the result, and the records come
    in the order of the block definition. *)
Theorem insert_replaces_parent_transform
        d name insert xscale yscale rotation approx_segs verbose doc
        nm ins ix iy sx sy rot blk outer w :
  name = Ok nm -> insert = Ok ins ->
  getitem ins 0 = Ok ix -> getitem ins 1 = Ok iy ->
  getattr xscale 1 = Ok sx -> getattr yscale 1 = Ok sy ->
  getattr rotation 0 = Ok rot ->
  blocks_get (blocks doc) nm = Some blk ->
  let e := INSERT name insert xscale yscale rotation in
  let own := ([ix; iy], sx, sy, rot) in
  out (snd (process_entity (S (S d)) e approx_segs true verbose doc (Some outer) w))
  = out w ++ flat_map (fun be => emitted (process_entity (S d) be approx_segs true
                                                          verbose doc (Some own)))
                      blk
  /\ process_entity (S (S d)) e approx_segs true verbose doc (Some outer)
     = process_entity (S (S d)) e approx_segs true verbose doc None.
Proof.
  intros Hname Hins Hix Hiy Hsx Hsy Hrot Hblk e own.
  split; [| apply process_entity_INSERT_ignores_parent].
  apply (process_entity_INSERT_out d name insert xscale yscale rotation
           approx_segs verbose doc nm ins); assumption.
Qed.

Lemma insert_replaces_parent_transform_witness :
  let doc := mkDocument [] [("B"%string, [LINE (Ok [0; 0]) (Ok [1; 0])])] in
  let e := INSERT (Ok "B"%string) (Ok [10; 0]) (Raise AttributeError)
                  (Raise AttributeError) (Raise AttributeError) in
  out (snd (process_entity 2 e 36 true false doc (Some ([100; 0], 1, 1, 0))
                           empty_world))
  = out empty_world
    ++ flat_map (fun be => emitted (process_entity 1 be 36 true false doc
                                      (Some ([10; 0], 1, 1, 0))))
                [LINE (Ok [0; 0]) (Ok [1; 0])]
  /\ process_entity 2 e 36 true false doc (Some ([100; 0], 1, 1, 0))
     = process_entity 2 e 36 true false doc None.
Proof.
  intros doc e.
  apply (insert_replaces_parent_transform
           0 (Ok "B"%string) (Ok [10; 0]) (Raise AttributeError)
           (Raise AttributeError) (Raise AttributeError) 36%Z false doc
           "B"%string [10; 0] 10 0 1 1 0 [LINE (Ok [0; 0]) (Ok [1; 0])]
           ([100; 0], 1, 1, 0) empty_world);
    reflexivity.
Defined.

(** ** What a handler adds to the output *)

Lemma traced_try_out (verbose : bool) (t : message) (body : M unit)
      (what : string) (w : world) :
  appends body ->
  out (snd ((when verbose (print t) ;; try_except body (warn what))%M w))
  = out w ++ emitted body.
Proof.
  intros Hb. unfold bindM.
  set (w1 := snd (when verbose (print t) w)).
  assert (Hw1 : when verbose (print t) w = (Ok tt, w1) /\ out w1 = out w)
    by (unfold w1; destruct verbose; split; reflexivity).
  destruct Hw1 as [-> Ho1].
  unfold try_except. pose proof (out_any_world body w1 Hb) as Ho.
  destruct (body w1) as [[[]|ex] w2]; simpl in Ho |- *;
    rewrite Ho, Ho1; reflexivity.
Qed.

Lemma process_entity_CIRCLE_out d center radius segs explode verbose doc pt w :
  out (snd (process_entity (S d) (CIRCLE center radius) segs explode verbose
                           doc pt w))
  = out w ++ emitted (CIRCLE_try center radius segs pt).
Proof.
  cbn [process_entity]. apply traced_try_out. apply CIRCLE_try_appends.
Qed.

Lemma process_entity_ARC_out d center radius sa ea segs explode verbose doc pt w :
  out (snd (process_entity (S d) (ARC center radius sa ea) segs explode verbose
                           doc pt w))
  = out w ++ emitted (ARC_try center radius sa ea segs pt).
Proof.
  cbn [process_entity]. apply traced_try_out. apply ARC_try_appends.
Qed.

Lemma CIRCLE_try_cases center radius segs pt w :
  (exists ex, CIRCLE_try center radius segs pt w = (Raise ex, w))
  \/ (exists pts cx cy r,
        CIRCLE_try center radius segs pt w
        = (Ok tt, mkWorld (out w ++ [polyline pts; circle cx cy r]) (stderr w))).
Proof.
  unfold CIRCLE_try, bindM, lift, out_append.
  destruct center as [c|ex]; [|left; eauto].
  destruct (getitem c 0) as [cx|ex]; [|left; eauto].
  destruct (getitem c 1) as [cy|ex]; [|left; eauto].
  destruct radius as [r|ex]; [|left; eauto].
  destruct pt as [tr|].
  - destruct (sample_circle 0 0 r (Some segs)) as [pts|ex]; [|left; eauto].
    destruct (recentre_and_transform cx cy tr pts) as [pts'|ex]; [|left; eauto].
    right. exists pts', cx, cy, r. simpl. rewrite <- app_assoc. reflexivity.
  - destruct (sample_circle cx cy r (Some segs)) as [pts|ex]; [|left; eauto].
    right. exists pts, cx, cy, r. simpl. rewrite <- app_assoc. reflexivity.
Qed.

Lemma ARC_try_cases center radius start_angle end_angle segs pt w :
  (exists ex, ARC_try center radius start_angle end_angle segs pt w = (Raise ex, w))
  \/ (exists pts cx cy r sa ea,
        ARC_try center radius start_angle end_angle segs pt w
        = (Ok tt, mkWorld (out w ++ [polyline pts; arc cx cy r sa ea]) (stderr w))).
Proof.
  unfold ARC_try, bindM, lift, out_append.
  destruct center as [c|ex]; [|left; eauto].
  destruct (getitem c 0) as [cx|ex]; [|left; eauto].
  destruct (getitem c 1) as [cy|ex]; [|left; eauto].
  destruct radius as [r|ex]; [|left; eauto].
  destruct start_angle as [sa|ex]; [|left; eauto].
  destruct end_angle as [ea|ex]; [|left; eauto].
  destruct pt as [tr|].
  - destruct (sample_arc 0 0 r sa ea (Some segs)) as [pts|ex]; [|left; eauto].
    destruct (recentre_and_transform cx cy tr pts) as [pts'|ex]; [|left; eauto].
    right. exists pts', cx, cy, r, sa, ea. simpl. rewrite <- app_assoc. reflexivity.
  - destruct (sample_arc cx cy r sa ea (Some segs)) as [pts|ex]; [|left; eauto].
    right. exists pts, cx, cy, r, sa, ea. simpl. rewrite <- app_assoc. reflexivity.
Qed.

(** ** Circles and arcs: two records, polyline first (C10) *)

(** C10. A CIRCLE or ARC entity whose handler completes appends
    exactly two records: the sampled polyline, and immediately after
    it the exact circle or arc record. *)
Theorem circle_arc_polyline_then_exact
        d segs explode verbose doc pt w :
  (forall center radius,
      outcome (CIRCLE_try center radius segs pt) = Ok tt ->
      exists pts cx cy r,
        out (snd (process_entity (S d) (CIRCLE center radius) segs explode
                                 verbose doc pt w))
        = out w ++ [polyline pts; circle cx cy r])
  /\ (forall center radius start_angle end_angle,
        outcome (ARC_try center radius start_angle end_angle segs pt) = Ok tt ->
        exists pts cx cy r sa ea,
          out (snd (process_entity (S d) (ARC center radius start_angle end_angle)
                                   segs explode verbose doc pt w))
          = out w ++ [polyline pts; arc cx cy r sa ea]).
Proof.
  split.
  - intros center radius Hok.
    rewrite process_entity_CIRCLE_out. unfold emitted, outcome in *.
    destruct (CIRCLE_try_cases center radius segs pt empty_world)
      as [[ex H]|[pts [cx [cy [r H]]]]]; rewrite H in *; simpl in *.
    + discriminate.
    + exists pts, cx, cy, r. reflexivity.
  - intros center radius sa0 ea0 Hok.
    rewrite process_entity_ARC_out. unfold emitted, outcome in *.
    destruct (ARC_try_cases center radius sa0 ea0 segs pt empty_world)
      as [[ex H]|[pts [cx [cy [r [sa [ea H]]]]]]]; rewrite H in *; simpl in *.
    + discriminate.
    + exists pts, cx, cy, r, sa, ea. reflexivity.
Qed.

Lemma circle_arc_polyline_then_exact_witness :
  exists pts cx cy r,
    out (snd (process_entity 1 (CIRCLE (Ok [0; 0]) (Ok 1)) 4 false false
                             (mkDocument [] []) None empty_world))
    = out empty_world ++ [polyline pts; circle cx cy r].
Proof.
  apply (proj1 (circle_arc_polyline_then_exact
                  0 4%Z false false (mkDocument [] []) None empty_world)
               (Ok [0; 0]) (Ok 1)).
  reflexivity.
Defined.

(** ** Circles and arcs inside a placed block (C1) *)

Lemma sample_circle_angles (cx cy r : R) (n : Z) :
  sample_circle cx cy r (Some n) = Ok (map (point_at cx cy r r) (circle_angles n)).
Proof.
  unfold circle_angles. destruct (Z.leb_spec 1 n) as [Hn|Hn].
  - rewrite sample_circle_pos by exact Hn. unfold sampleCircle_spec.
    rewrite map_app, map_map. reflexivity.
  - rewrite sample_circle_nonpos by lia. reflexivity.
Qed.

Lemma sample_arc_angles (cx cy r s e : R) (n : Z) :
  n <> 0%Z ->
  sample_arc cx cy r s e (Some n) = Ok (map (point_at cx cy r r) (arc_angles s e n)).
Proof.
  intros Hn. rewrite sample_arc_nonzero by exact Hn.
  unfold sampleArc_spec, arc_angles. rewrite map_map. reflexivity.
Qed.

Lemma recentre_origin_point (cx cy r t : R) :
  [0 + r * cos t + cx; 0 + r * sin t + cy] = point_at cx cy r r t.
Proof. unfold point_at. f_equal; [ring | f_equal; ring]. Qed.

Lemma recentre_origin_head (cx cy r t : R) (tr : transform) :
  (p0 <- getitem (point_at 0 0 r r t) 0 ;;
   p1 <- getitem (point_at 0 0 r r t) 1 ;;
   transform_point_star [p0 + cx; p1 + cy] tr)
  = transform_point_star (point_at cx cy r r t) tr.
Proof.
  change (transform_point_star [0 + r * cos t + cx; 0 + r * sin t + cy] tr
          = transform_point_star (point_at cx cy r r t) tr).
  rewrite recentre_origin_point. reflexivity.
Qed.

(** Sampling about the origin, moving each point by the centre and
    placing it is placing each point sampled about the centre. *)
Lemma recentre_and_transform_local (cx cy r : R) (tr : transform) (angles : list R) :
  recentre_and_transform cx cy tr (map (point_at 0 0 r r) angles)
  = mapM (fun p => transform_point_star p tr) (map (point_at cx cy r r) angles).
Proof.
  unfold recentre_and_transform.
  induction angles as [|t ts IH]; cbn [map mapM].
  - reflexivity.
  - rewrite IH, recentre_origin_head. reflexivity.
Qed.

Lemma transform_all_points_total (tx ty sx sy rot cx cy rx ry : R) (angles : list R) :
  exists placed,
    mapM (fun p => transform_point_star p ([tx; ty], sx, sy, rot))
         (map (point_at cx cy rx ry) angles)
    = Ok placed.
Proof.
  induction angles as [|t ts [placed IH]]; cbn [map mapM].
  - eexists; reflexivity.
  - rewrite IH. unfold point_at, transform_point_star.
    rewrite transform_point_xy.
    eexists; reflexivity.
Qed.

Lemma emitted_CIRCLE_placed c cx cy r segs tr placed :
  getitem c 0 = Ok cx -> getitem c 1 = Ok cy ->
  mapM (fun p => transform_point_star p tr)
       (map (point_at cx cy r r) (circle_angles segs)) = Ok placed ->
  emitted (CIRCLE_try (Ok c) (Ok r) segs (Some tr))
  = [polyline placed; circle cx cy r].
Proof.
  intros H0 H1 Hp.
  unfold emitted, CIRCLE_try, bindM, lift.
  rewrite H0, H1, sample_circle_angles, recentre_and_transform_local, Hp.
  reflexivity.
Qed.

Lemma emitted_ARC_placed c cx cy r sa ea segs tr placed :
  segs <> 0%Z ->
  getitem c 0 = Ok cx -> getitem c 1 = Ok cy ->
  mapM (fun p => transform_point_star p tr)
       (map (point_at cx cy r r) (arc_angles sa ea segs)) = Ok placed ->
  emitted (ARC_try (Ok c) (Ok r) (Ok sa) (Ok ea) segs (Some tr))
  = [polyline placed; arc cx cy r sa ea].
Proof.
  intros Hn H0 H1 Hp.
  unfold emitted, ARC_try, bindM, lift.
  rewrite H0, H1, sample_arc_angles by exact Hn.
  rewrite recentre_and_transform_local, Hp.
  reflexivity.
Qed.

(** C1. A CIRCLE or ARC entity normalised under a placement transform
    (inside a placed block instance) yields the polyline whose points
    are [transform_point] of each point sampled from the circle or arc
    at its own centre, followed by the exact record with the entity's
    own centre, radius and angles, untransformed. *)
Theorem exact_record_local_polyline_placed
        d c cx cy r segs explode verbose doc tx ty sx sy rot w :
  getitem c 0 = Ok cx -> getitem c 1 = Ok cy ->
  let tr := ([tx; ty], sx, sy, rot) in
  (exists sampled placed,
      sample_circle cx cy r (Some segs) = Ok sampled
      /\ mapM (fun p => transform_point_star p tr) sampled = Ok placed
      /\ out (snd (process_entity (S d) (CIRCLE (Ok c) (Ok r)) segs explode
                                  verbose doc (Some tr) w))
         = out w ++ [polyline placed; circle cx cy r])
  /\ (forall sa ea,
        segs <> 0%Z ->
        exists sampled placed,
          sample_arc cx cy r sa ea (Some segs) = Ok sampled
          /\ mapM (fun p => transform_point_star p tr) sampled = Ok placed
          /\ out (snd (process_entity (S d) (ARC (Ok c) (Ok r) (Ok sa) (Ok ea))
                                      segs explode verbose doc (Some tr) w))
             = out w ++ [polyline placed; arc cx cy r sa ea]).
Proof.
  intros H0 H1 tr. subst tr. split.
  - destruct (transform_all_points_total tx ty sx sy rot cx cy r r
                                         (circle_angles segs)) as [placed Hp].
    exists (map (point_at cx cy r r) (circle_angles segs)), placed.
    split; [apply sample_circle_angles|]. split; [exact Hp|].
    rewrite process_entity_CIRCLE_out.
    f_equal. apply emitted_CIRCLE_placed; assumption.
  - intros sa ea Hn.
    destruct (transform_all_points_total tx ty sx sy rot cx cy r r
                                         (arc_angles sa ea segs)) as [placed Hp].
    exists (map (point_at cx cy r r) (arc_angles sa ea segs)), placed.
    split; [apply sample_arc_angles; exact Hn|]. split; [exact Hp|].
    rewrite process_entity_ARC_out.
    f_equal. apply emitted_ARC_placed; assumption.
Qed.

Lemma exact_record_local_polyline_placed_witness :
  exists sampled placed,
    sample_circle 1 2 3 (Some 4%Z) = Ok sampled
    /\ mapM (fun p => transform_point_star p ([10; 20], 2, 1, 90)) sampled
       = Ok placed
    /\ out (snd (process_entity 1 (CIRCLE (Ok [1; 2]) (Ok 3)) 4 true false
                                (mkDocument [] []) (Some ([10; 20], 2, 1, 90))
                                empty_world))
       = out empty_world ++ [polyline placed; circle 1 2 3].
Proof.
  apply (proj1 (exact_record_local_polyline_placed
                  0 [1; 2] 1 2 3 4%Z true false (mkDocument [] [])
                  10 20 2 1 90 empty_world eq_refl eq_refl)).
Defined.

(** ** Ellipses (C7) *)

Lemma ellipse_points_eq (cx cy rx ry : R) (n : Z) :
  ellipse_points cx cy rx ry n
  = Ok (map (fun i => point_at cx cy rx ry (2 * PI * IZR i / IZR n)) (range n)).
Proof.
  unfold ellipse_points. apply mapM_map. intros i Hi. apply range_In in Hi.
  rewrite truediv_nonzero by lia. reflexivity.
Qed.

Lemma ellipse_points_spec (cx cy m0 m1 ratio : R) (n : Z) :
  ellipse_points cx cy (hypot m0 m1) (hypot m0 m1 * ratio) n
  = Ok (sampleEllipse_spec cx cy (m0, m1) ratio n).
Proof. rewrite ellipse_points_eq. reflexivity. Qed.

Lemma sampleEllipse_spec_length (cx cy : R) (maj : R * R) (ratio : R) (n : Z) :
  List.length (sampleEllipse_spec cx cy maj ratio n) = Z.to_nat n.
Proof. unfold sampleEllipse_spec. rewrite length_map. apply range_length. Qed.

Lemma sampleEllipse_spec_nth (cx cy m0 m1 ratio : R) (n : Z) (k : nat) :
  (k < Z.to_nat n)%nat ->
  nth_error (sampleEllipse_spec cx cy (m0, m1) ratio n) k
  = Some (point_at cx cy (hypot m0 m1) (hypot m0 m1 * ratio)
                   (2 * PI * IZR (Z.of_nat k) / IZR n)).
Proof.
  intros Hk. unfold sampleEllipse_spec.
  rewrite nth_error_map, range_nth_error by exact Hk. reflexivity.
Qed.

Lemma emitted_ELLIPSE c maj cx cy m0 m1 ratio segs pt placed :
  getitem c 0 = Ok cx -> getitem c 1 = Ok cy ->
  getitem maj 0 = Ok m0 -> getitem maj 1 = Ok m1 ->
  transform_all pt (sampleEllipse_spec cx cy (m0, m1) ratio segs) = Ok placed ->
  emitted (ELLIPSE_try (Ok c) (Ok maj) (Ok ratio) segs pt) = [polyline placed].
Proof.
  intros Hc0 Hc1 Hm0 Hm1 Hp.
  unfold emitted, ELLIPSE_try, bindM, lift. cbn [bind].
  rewrite Hc0; cbn [bind]. rewrite Hc1; cbn [bind].
  rewrite Hm0; cbn [bind]. rewrite Hm1; cbn [bind].
  rewrite ellipse_points_spec; cbn [bind]. rewrite Hp.
  reflexivity.
Qed.

Lemma process_entity_ELLIPSE_out d center major_axis ratio segs explode verbose
      doc pt w :
  out (snd (process_entity (S d) (ELLIPSE center major_axis ratio) segs explode
                           verbose doc pt w))
  = out w ++ emitted (ELLIPSE_try center major_axis ratio segs pt).
Proof.
  cbn [process_entity]. apply traced_try_out. apply ELLIPSE_try_appends.
Qed.

(** C7, the sentence on the end points as the specification has it,
    refuted: with one segment the polyline of an ellipse is a single
    point, which is its first and its last point at once. *)
Lemma ellipse_one_segment_first_is_last :
  exists p,
    out (snd (process_entity 1 (ELLIPSE (Ok [0; 0]) (Ok [1; 0]) (Ok 1))
                             1 false false (mkDocument [] []) None empty_world))
    = [polyline [p]].
Proof.
  eexists. rewrite process_entity_ELLIPSE_out.
  rewrite (emitted_ELLIPSE [0; 0] [1; 0] 0 0 1 0 1 1 None
             (sampleEllipse_spec 0 0 (1, 0) 1 1)); reflexivity.
Qed.

Lemma sampleEllipse_spec_first (cx cy m0 m1 ratio : R) (n : Z) :
  (1 <= n)%Z ->
  nth_error (sampleEllipse_spec cx cy (m0, m1) ratio n) 0
  = Some (point_at cx cy (hypot m0 m1) (hypot m0 m1 * ratio) 0).
Proof.
  intros Hn. rewrite sampleEllipse_spec_nth by lia.
  cbn [Z.of_nat]. rewrite turn_fraction_0 by exact Hn. reflexivity.
Qed.

Lemma sampleEllipse_spec_last (cx cy m0 m1 ratio : R) (n : Z) :
  (1 <= n)%Z ->
  nth_error (sampleEllipse_spec cx cy (m0, m1) ratio n) (Z.to_nat n - 1)
  = Some (point_at cx cy (hypot m0 m1) (hypot m0 m1 * ratio)
                   (2 * PI * IZR (n - 1) / IZR n)).
Proof.
  intros Hn. rewrite sampleEllipse_spec_nth by lia.
  replace (Z.of_nat (Z.to_nat n - 1)) with (n - 1)%Z by lia.
  reflexivity.
Qed.

Lemma sampleEllipse_spec_one (cx cy m0 m1 ratio : R) :
  sampleEllipse_spec cx cy (m0, m1) ratio 1
  = [point_at cx cy (hypot m0 m1) (hypot m0 m1 * ratio) 0].
Proof.
  unfold sampleEllipse_spec. change (range 1) with [0%Z]. cbn [map fst snd].
  rewrite turn_fraction_0 by lia. reflexivity.
Qed.

(** C7, amended.  For an ELLIPSE entity the handler takes [radiusX] to
    be the magnitude of the major-axis vector and [radiusY] to be
    [radiusX * ratio], and emits one polyline of exactly [segments]
    points (not [segments + 1]) at the angles [2 pi i / segments],
    [i] in [[0, segments)], placed by the active transform when there
    is one.  No closing point is appended: the first point is the one
    at angle 0 and the last the one at angle
    [2 pi (segments - 1) / segments]; with one segment the polyline is
    the single point at angle 0, its first and last point at once. *)
Theorem ellipse_sampler_open
        d c maj cx cy m0 m1 ratio segs explode verbose doc w :
  getitem c 0 = Ok cx -> getitem c 1 = Ok cy ->
  getitem maj 0 = Ok m0 -> getitem maj 1 = Ok m1 ->
  (1 <= segs)%Z ->
  let e := ELLIPSE (Ok c) (Ok maj) (Ok ratio) in
  let pts := sampleEllipse_spec cx cy (m0, m1) ratio segs in
  ellipse_points cx cy (hypot m0 m1) (hypot m0 m1 * ratio) segs = Ok pts
  /\ out (snd (process_entity (S d) e segs explode verbose doc None w))
     = out w ++ [polyline pts]
  /\ List.length pts = Z.to_nat segs
  /\ (forall tx ty sx sy rot,
        exists placed,
          mapM (fun p => transform_point_star p ([tx; ty], sx, sy, rot)) pts
          = Ok placed
          /\ List.length placed = Z.to_nat segs
          /\ out (snd (process_entity (S d) e segs explode verbose doc
                                      (Some ([tx; ty], sx, sy, rot)) w))
             = out w ++ [polyline placed])
  /\ nth_error pts 0
     = Some (point_at cx cy (hypot m0 m1) (hypot m0 m1 * ratio) 0)
  /\ nth_error pts (Z.to_nat segs - 1)
     = Some (point_at cx cy (hypot m0 m1) (hypot m0 m1 * ratio)
                      (2 * PI * IZR (segs - 1) / IZR segs))
  /\ (segs = 1%Z ->
      pts = [point_at cx cy (hypot m0 m1) (hypot m0 m1 * ratio) 0]).
Proof.
  intros Hc0 Hc1 Hm0 Hm1 Hn e pts. subst e pts.
  split; [apply ellipse_points_spec|].
  split.
  { rewrite process_entity_ELLIPSE_out. f_equal.
    apply (emitted_ELLIPSE c maj cx cy m0 m1); try assumption. reflexivity. }
  split; [apply sampleEllipse_spec_length|].
  split.
  { intros tx ty sx sy rot.
    destruct (transform_all_points_total tx ty sx sy rot cx cy
                (hypot m0 m1) (hypot m0 m1 * ratio)
                (map (fun i => 2 * PI * IZR i / IZR segs) (range segs)))
      as [placed Hp].
    rewrite map_map in Hp.
    change (mapM (fun p => transform_point_star p ([tx; ty], sx, sy, rot))
                 (sampleEllipse_spec cx cy (m0, m1) ratio segs) = Ok placed) in Hp.
    exists placed. split; [exact Hp|]. split.
    + rewrite (mapM_length _ _ _ Hp). apply sampleEllipse_spec_length.
    + rewrite process_entity_ELLIPSE_out. f_equal.
      apply (emitted_ELLIPSE c maj cx cy m0 m1); assumption. }
  split; [apply sampleEllipse_spec_first; exact Hn|].
  split; [apply sampleEllipse_spec_last; exact Hn|].
  intros ->. apply sampleEllipse_spec_one.
Qed.

Lemma ellipse_sampler_open_witness :
  let e := ELLIPSE (Ok [0; 0]) (Ok [3; 4]) (Ok (1 / 2)) in
  let pts := sampleEllipse_spec 0 0 (3, 4) (1 / 2) 8 in
  ellipse_points 0 0 (hypot 3 4) (hypot 3 4 * (1 / 2)) 8 = Ok pts
  /\ out (snd (process_entity 1 e 8 false false (mkDocument [] []) None
                              empty_world))
     = out empty_world ++ [polyline pts]
  /\ List.length pts = Z.to_nat 8
  /\ (forall tx ty sx sy rot,
        exists placed,
          mapM (fun p => transform_point_star p ([tx; ty], sx, sy, rot)) pts
          = Ok placed
          /\ List.length placed = Z.to_nat 8
          /\ out (snd (process_entity 1 e 8 false false (mkDocument [] [])
                                      (Some ([tx; ty], sx, sy, rot)) empty_world))
             = out empty_world ++ [polyline placed])
  /\ nth_error pts 0 = Some (point_at 0 0 (hypot 3 4) (hypot 3 4 * (1 / 2)) 0)
  /\ nth_error pts (Z.to_nat 8 - 1)
     = Some (point_at 0 0 (hypot 3 4) (hypot 3 4 * (1 / 2))
                      (2 * PI * IZR (8 - 1) / IZR 8))
  /\ (8%Z = 1%Z ->
      pts = [point_at 0 0 (hypot 3 4) (hypot 3 4 * (1 / 2)) 0]).
Proof.
  apply (ellipse_sampler_open 0 [0; 0] [3; 4] 0 0 3 4 (1 / 2) 8%Z false false
                              (mkDocument [] []) empty_world);
    [reflexivity | reflexivity | reflexivity | reflexivity | lia].
Defined.

(** ** Polylines (C9) *)

Lemma process_entity_LWPOLYLINE_out d get_points segs explode verbose doc pt w :
  out (snd (process_entity (S d) (LWPOLYLINE get_points) segs explode verbose
                           doc pt w))
  = out w ++ emitted (LWPOLYLINE_try get_points pt).
Proof.
  cbn [process_entity]. apply traced_try_out. apply LWPOLYLINE_try_appends.
Qed.

Lemma process_entity_POLYLINE_out d vertices segs explode verbose doc pt w :
  out (snd (process_entity (S d) (POLYLINE vertices) segs explode verbose
                           doc pt w))
  = out w ++ emitted (POLYLINE_try vertices pt).
Proof.
  cbn [process_entity]. apply traced_try_out. apply POLYLINE_try_appends.
Qed.

Lemma transform_all_nil (pt : option transform) : transform_all pt [] = Ok [].
Proof. destruct pt; reflexivity. Qed.

(** A polyline of either kind with vertices: one record, the 2-D
    projection of each vertex in order, placed when a transform is
    active. *)
Lemma emitted_LWPOLYLINE_projection (raw : list (list R))
      (pt : option transform) (placed : list (list R)) :
  Forall (fun v => (2 <= List.length v)%nat) raw ->
  transform_all pt (map (fun v => firstn 2 v) raw) = Ok placed ->
  emitted (LWPOLYLINE_try (Ok raw) pt) = [polyline placed].
Proof.
  intros Hraw Hp. unfold emitted, LWPOLYLINE_try, bindM, lift. cbn [bind].
  rewrite (mapM_map _ (fun v => firstn 2 v)).
  - cbn [bind]. rewrite Hp. reflexivity.
  - intros v Hv. rewrite Forall_forall in Hraw. specialize (Hraw v Hv).
    destruct v as [|x [|y rest]]; simpl in Hraw; try lia. reflexivity.
Qed.

Lemma emitted_POLYLINE_projection (xys : list (R * R))
      (pt : option transform) (placed : list (list R)) :
  transform_all pt (map (fun xy => [fst xy; snd xy]) xys) = Ok placed ->
  placed <> [] ->
  emitted (POLYLINE_try
             (Ok (map (fun xy => mkVertex (Ok (fst xy)) (Ok (snd xy))) xys)) pt)
  = [polyline placed].
Proof.
  intros Hp Hne. unfold emitted, POLYLINE_try, bindM, lift. cbn [bind].
  rewrite (mapM_map _ (fun v => match vertex_x v, vertex_y v with
                                | Ok x, Ok y => [x; y]
                                | _, _ => []
                                end)).
  - rewrite map_map. cbn [bind vertex_x vertex_y]. rewrite Hp.
    destruct placed; [contradiction | reflexivity].
  - intros v Hv. apply in_map_iff in Hv. destruct Hv as [xy [<- _]].
    reflexivity.
Qed.

(** C9 at the input where the code departs from it.  A LWPOLYLINE
    with no vertices still appends a polyline record, with an empty
    point list; the POLYLINE branch, which tests [if pts:], appends
    nothing for the same vertex list. *)
Theorem lwpolyline_empty_emits_record d segs explode verbose doc pt w :
  out (snd (process_entity (S d) (LWPOLYLINE (Ok [])) segs explode verbose
                           doc pt w))
  = out w ++ [polyline []]
  /\ out (snd (process_entity (S d) (POLYLINE (Ok [])) segs explode verbose
                              doc pt w))
     = out w.
Proof.
  split.
  - rewrite process_entity_LWPOLYLINE_out. f_equal.
    unfold emitted, LWPOLYLINE_try, bindM, lift. cbn [bind mapM].
    rewrite transform_all_nil. reflexivity.
  - rewrite process_entity_POLYLINE_out.
    unfold emitted, POLYLINE_try, bindM, lift. cbn [bind mapM].
    rewrite transform_all_nil. simpl. apply app_nil_r.
Qed.

(** ** The main loop *)

Lemma emitted_try_except_returns (c : M unit) (what : string) :
  (forall w, fst (c w) = Ok tt) ->
  emitted (try_except c (warn what)) = emitted c.
Proof.
  intros Hc. unfold emitted, try_except.
  specialize (Hc empty_world).
  destruct (c empty_world) as [[[]|ex] w']; simpl in Hc; [reflexivity | discriminate].
Qed.

Lemma main_loop_out d entities a doc w :
  out (snd (main_loop (S d) entities a doc w))
  = out w ++ flat_map (fun e => emitted (process_entity (S d) e
                                           (args_approx_segs a)
                                           (args_explode_inserts a)
                                           (args_verbose a) doc None))
                      entities.
Proof.
  unfold main_loop. rewrite for_each_out.
  - f_equal. apply flat_map_ext. intros e.
    apply emitted_try_except_returns. intros w'. apply process_entity_returns.
  - intros e. apply appends_try_except.
    + apply process_entity_appends.
    + intros ex. apply appends_print.
  - intros e w'. apply try_except_warn_returns.
Qed.

Lemma main_out d a doc :
  out (main (S d) a doc)
  = flat_map (fun e => emitted (process_entity (S d) e (args_approx_segs a)
                                  (args_explode_inserts a) (args_verbose a)
                                  doc None))
             (modelspace doc).
Proof. unfold main. rewrite main_loop_out. reflexivity. Qed.

(** ** Default segment counts (C8) *)

Lemma emitted_CIRCLE_direct c cx cy r segs :
  getitem c 0 = Ok cx -> getitem c 1 = Ok cy ->
  emitted (CIRCLE_try (Ok c) (Ok r) segs None)
  = [polyline (map (point_at cx cy r r) (circle_angles segs)); circle cx cy r].
Proof.
  intros H0 H1. unfold emitted, CIRCLE_try, bindM, lift.
  rewrite H0, H1, sample_circle_angles. reflexivity.
Qed.

Lemma emitted_ARC_direct c cx cy r sa ea segs :
  segs <> 0%Z ->
  getitem c 0 = Ok cx -> getitem c 1 = Ok cy ->
  emitted (ARC_try (Ok c) (Ok r) (Ok sa) (Ok ea) segs None)
  = [polyline (map (point_at cx cy r r) (arc_angles sa ea segs));
     arc cx cy r sa ea].
Proof.
  intros Hn H0 H1. unfold emitted, ARC_try, bindM, lift.
  rewrite H0, H1, sample_arc_angles by exact Hn. reflexivity.
Qed.

Lemma circle_angles_length (n : Z) :
  (1 <= n)%Z -> List.length (circle_angles n) = S (Z.to_nat n).
Proof.
  intros Hn. unfold circle_angles.
  destruct (Z.leb_spec 1 n); [|lia].
  rewrite length_app, length_map, range_length. simpl. lia.
Qed.

Lemma arc_angles_length (s e : R) (n : Z) :
  (0 <= n)%Z -> List.length (arc_angles s e n) = S (Z.to_nat n).
Proof.
  intros Hn. unfold arc_angles. rewrite length_map, range_length. lia.
Qed.

Lemma emitted_process_entity_CIRCLE d center radius segs explode verbose doc pt :
  emitted (process_entity (S d) (CIRCLE center radius) segs explode verbose doc pt)
  = emitted (CIRCLE_try center radius segs pt).
Proof. unfold emitted at 1. rewrite process_entity_CIRCLE_out. reflexivity. Qed.

(** C8 as the specification has it, refuted: run without a segment
    count, the program samples a circle with 36 segments (37 points),
    not with 48. *)
Lemma default_segments_circle_is_36 :
  exists pts,
    out (main 1 (parse_args None false false)
              (mkDocument [CIRCLE (Ok [0; 0]) (Ok 1)] []))
    = [polyline pts; circle 0 0 1]
    /\ List.length pts = 37%nat
    /\ sample_circle 0 0 1 (Some 48%Z) <> Ok pts.
Proof.
  exists (map (point_at 0 0 1 1) (circle_angles 36)).
  split; [|split].
  - rewrite main_out. cbn [modelspace flat_map]. rewrite app_nil_r.
    rewrite emitted_process_entity_CIRCLE.
    apply (emitted_CIRCLE_direct [0; 0] 0 0 1); reflexivity.
  - rewrite length_map, circle_angles_length by lia. reflexivity.
  - rewrite sample_circle_angles. intros H.
    assert (Hl : List.length (map (point_at 0 0 1 1) (circle_angles 48))
                 = List.length (map (point_at 0 0 1 1) (circle_angles 36)))
      by congruence.
    rewrite !length_map, !circle_angles_length in Hl by lia.
    discriminate.
Qed.

Lemma emitted_process_entity_ARC d center radius sa ea segs explode verbose doc pt :
  emitted (process_entity (S d) (ARC center radius sa ea) segs explode verbose
                          doc pt)
  = emitted (ARC_try center radius sa ea segs pt).
Proof. unfold emitted at 1. rewrite process_entity_ARC_out. reflexivity. Qed.

Lemma emitted_process_entity_ELLIPSE d center major_axis ratio segs explode
      verbose doc pt :
  emitted (process_entity (S d) (ELLIPSE center major_axis ratio) segs explode
                          verbose doc pt)
  = emitted (ELLIPSE_try center major_axis ratio segs pt).
Proof. unfold emitted at 1. rewrite process_entity_ELLIPSE_out. reflexivity. Qed.

(** C8, amended.  Run without a segment count, the program uses 36
    segments for every entity and passes that count to every sampler:
    a circle and an arc are sampled at 37 points and an ellipse at 36.
    The defaults written in the samplers' signatures, 36 for
    [sample_arc] and 48 for [sample_circle] and [spline_to_poly], serve
    only a call that leaves the count out, and [process_entity] makes
    none. *)
Theorem default_segment_counts (explode verbose : bool) :
  args_approx_segs (parse_args None explode verbose) = 36%Z
  /\ (forall d doc,
        out (main (S d) (parse_args None explode verbose) doc)
        = flat_map (fun e => emitted (process_entity (S d) e 36 explode verbose
                                                     doc None))
                   (modelspace doc))
  /\ (forall d doc c cx cy r,
        getitem c 0 = Ok cx -> getitem c 1 = Ok cy ->
        exists pts,
          sample_circle cx cy r (Some 36%Z) = Ok pts
          /\ List.length pts = 37%nat
          /\ emitted (process_entity (S d) (CIRCLE (Ok c) (Ok r)) 36 explode
                                     verbose doc None)
             = [polyline pts; circle cx cy r])
  /\ (forall d doc c cx cy r sa ea,
        getitem c 0 = Ok cx -> getitem c 1 = Ok cy ->
        exists pts,
          sample_arc cx cy r sa ea (Some 36%Z) = Ok pts
          /\ List.length pts = 37%nat
          /\ emitted (process_entity (S d) (ARC (Ok c) (Ok r) (Ok sa) (Ok ea)) 36
                                     explode verbose doc None)
             = [polyline pts; arc cx cy r sa ea])
  /\ (forall d doc c maj cx cy m0 m1 ratio,
        getitem c 0 = Ok cx -> getitem c 1 = Ok cy ->
        getitem maj 0 = Ok m0 -> getitem maj 1 = Ok m1 ->
        exists pts,
          ellipse_points cx cy (hypot m0 m1) (hypot m0 m1 * ratio) 36 = Ok pts
          /\ List.length pts = 36%nat
          /\ emitted (process_entity (S d) (ELLIPSE (Ok c) (Ok maj) (Ok ratio)) 36
                                     explode verbose doc None)
             = [polyline pts])
  /\ (forall cx cy r,
        sample_circle cx cy r None = sample_circle cx cy r (Some 48%Z))
  /\ (forall cx cy r sa ea,
        sample_arc cx cy r sa ea None = sample_arc cx cy r sa ea (Some 36%Z))
  /\ (forall fit_points control_points,
        spline_to_poly fit_points control_points None
        = spline_to_poly fit_points control_points (Some 48%Z)).
Proof.
  split; [reflexivity|].
  split; [intros d doc; apply main_out|].
  split.
  { intros d doc c cx cy r H0 H1.
    exists (map (point_at cx cy r r) (circle_angles 36)).
    split; [apply sample_circle_angles|]. split.
    - rewrite length_map, circle_angles_length by lia. reflexivity.
    - rewrite emitted_process_entity_CIRCLE.
      apply emitted_CIRCLE_direct; assumption. }
  split.
  { intros d doc c cx cy r sa ea H0 H1.
    exists (map (point_at cx cy r r) (arc_angles sa ea 36)).
    split; [apply sample_arc_angles; lia|]. split.
    - rewrite length_map, arc_angles_length by lia. reflexivity.
    - rewrite emitted_process_entity_ARC.
      apply emitted_ARC_direct; [lia | assumption | assumption]. }
  split.
  { intros d doc c maj cx cy m0 m1 ratio H0 H1 Hm0 Hm1.
    exists (sampleEllipse_spec cx cy (m0, m1) ratio 36).
    split; [apply ellipse_points_spec|]. split.
    - rewrite sampleEllipse_spec_length. reflexivity.
    - rewrite emitted_process_entity_ELLIPSE.
      apply (emitted_ELLIPSE c maj cx cy m0 m1); try assumption. reflexivity. }
  repeat split; reflexivity.
Qed.

Lemma default_segment_counts_witness :
  exists pts,
    sample_circle 0 0 1 (Some 36%Z) = Ok pts
    /\ List.length pts = 37%nat
    /\ emitted (process_entity 1 (CIRCLE (Ok [0; 0]) (Ok 1)) 36 false false
                               (mkDocument [] []) None)
       = [polyline pts; circle 0 0 1].
Proof.
  apply (proj1 (proj2 (proj2 (default_segment_counts false false)))
               0%nat (mkDocument [] []) [0; 0] 0 0 1);
    reflexivity.
Defined.

(** ** Fault isolation (C3) *)

Lemma process_entity_try_body d e segs explode verbose doc pt body :
  try_body (fun be tr => process_entity d be segs explode verbose doc tr)
           e segs explode verbose doc pt = Some body ->
  exists what,
    process_entity (S d) e segs explode verbose doc pt
    = (when verbose (print (Processing_entity (dxftype e))) ;;
       try_except body (warn what))%M.
Proof.
  destruct e; cbn [try_body]; try discriminate; intros H.
  1-7: inversion H; subst; eexists; reflexivity.
  destruct explode; [|discriminate].
  inversion H; subst; eexists; reflexivity.
Qed.

Lemma try_body_appends d e segs explode verbose doc pt body :
  try_body (fun be tr => process_entity d be segs explode verbose doc tr)
           e segs explode verbose doc pt = Some body ->
  appends body.
Proof.
  destruct e; cbn [try_body]; try discriminate; intros H.
  - inversion H; subst. apply LINE_try_appends.
  - inversion H; subst. apply LWPOLYLINE_try_appends.
  - inversion H; subst. apply POLYLINE_try_appends.
  - inversion H; subst. apply CIRCLE_try_appends.
  - inversion H; subst. apply ARC_try_appends.
  - inversion H; subst. apply ELLIPSE_try_appends.
  - inversion H; subst. apply SPLINE_try_appends.
  - destruct explode; [|discriminate].
    inversion H; subst.
    apply INSERT_try_appends. intros be tr. apply process_entity_appends.
Qed.

Lemma traced_try_stderr (verbose : bool) (t : message) (body : M unit)
      (what : string) (w : world) :
  appends body ->
  stderr (snd ((when verbose (print t) ;; try_except body (warn what))%M w))
  = stderr w ++ (if verbose then [t] else []) ++ printed body
    ++ match outcome body with
       | Ok _ => []
       | Raise ex => [Warning what (Some ex)]
       end.
Proof.
  intros Hb. unfold bindM.
  set (w1 := snd (when verbose (print t) w)).
  assert (Hw1 : when verbose (print t) w = (Ok tt, w1)
                /\ stderr w1 = stderr w ++ (if verbose then [t] else []))
    by (unfold w1; destruct verbose; split; simpl;
        rewrite ?app_nil_r; reflexivity).
  destruct Hw1 as [-> Hs1].
  unfold try_except.
  pose proof (stderr_any_world body w1 Hb) as Hs.
  pose proof (outcome_any_world body w1 Hb) as Ho.
  destruct (body w1) as [[[]|ex] w2]; simpl in Hs, Ho |- *;
    rewrite <- Ho, Hs, Hs1, <- ?app_assoc; simpl;
    rewrite ?app_nil_r; reflexivity.
Qed.

(** A body made of one fallible pure computation followed by steps
    that cannot raise leaves no trace when it raises. *)
Lemma lift_then_raises {A : Type} (X : result A) (k : A -> M unit) (ex : exn) :
  (forall a, outcome (k a) = Ok tt) ->
  outcome (bindM (lift X) k) = Raise ex ->
  bindM (lift X) k empty_world = (Raise ex, empty_world).
Proof.
  intros Hk. unfold outcome, bindM, lift.
  destruct X as [a|ex']; simpl.
  - intros H. specialize (Hk a). unfold outcome in Hk. congruence.
  - intros H. congruence.
Qed.

Lemma for_each_depth_0 e0 rest segs explode verbose doc tr w :
  for_each (e0 :: rest)
           (fun be => process_entity 0 be segs explode verbose doc tr) w
  = (Raise RecursionError, w).
Proof. reflexivity. Qed.

Lemma INSERT_try_raises d name insert xscale yscale rotation segs verbose doc ex :
  let body := INSERT_try
                (fun be tr => process_entity d be segs true verbose doc tr)
                name insert xscale yscale rotation verbose doc in
  outcome body = Raise ex ->
  emitted body = [] /\ filter is_warning (printed body) = [].
Proof.
  intros body. subst body.
  unfold outcome, emitted, printed, INSERT_try, bindM, lift.
  destruct name as [nm|ex0]; [|split; reflexivity].
  destruct insert as [ins|ex0]; [|split; reflexivity].
  destruct (getitem ins 0) as [ix|ex0]; [|split; reflexivity].
  destruct (getitem ins 1) as [iy|ex0]; [|split; reflexivity].
  destruct (getattr xscale 1) as [sx|ex0]; [|split; reflexivity].
  destruct (getattr yscale 1) as [sy|ex0]; [|split; reflexivity].
  destruct (getattr rotation 0) as [rot|ex0]; [|split; reflexivity].
  set (w1 := snd (when verbose (print (Expanding_INSERT nm [ix; iy] sx sy rot))
                       empty_world)).
  assert (Hw1 : when verbose (print (Expanding_INSERT nm [ix; iy] sx sy rot))
                     empty_world = (Ok tt, w1)
                /\ out w1 = [] /\ filter is_warning (stderr w1) = [])
    by (unfold w1; destruct verbose; repeat split; reflexivity).
  destruct Hw1 as [-> [Ho1 Hs1]].
  destruct (blocks_get (blocks doc) nm) as [blk|].
  - destruct d as [|d'].
    + destruct blk as [|e0 rest].
      * simpl. discriminate.
      * rewrite for_each_depth_0. simpl. intros _. split; assumption.
    + intros H. exfalso.
      pose proof (for_each_returns blk
                    (fun be => process_entity (S d') be segs true verbose doc
                                 (Some ([ix; iy], sx, sy, rot)))
                    (fun be w' => process_entity_returns d' be segs true verbose
                                    doc _ w') w1) as Hr.
      destruct (for_each blk _ w1) as [[[]|ex'] w2]; simpl in *; congruence.
  - simpl. discriminate.
Qed.

Lemma SPLINE_try_raises fit_points control_points segs pt ex :
  let body := SPLINE_try fit_points control_points segs pt in
  outcome body = Raise ex ->
  emitted body = [] /\ filter is_warning (printed body) = [].
Proof.
  intros body. subst body.
  unfold outcome, emitted, printed, SPLINE_try, spline_to_poly, kwarg,
    bindM, try_except, lift.
  destruct (spline_to_poly_try fit_points control_points segs)
    as [[pts|]|ex0]; simpl.
  - destruct (transform_all pt pts) as [pts'|ex1]; simpl.
    + destruct (truthy pts'); simpl; discriminate.
    + intros _; split; reflexivity.
  - rewrite transform_all_nil. simpl. discriminate.
  - rewrite transform_all_nil. simpl. discriminate.
Qed.

Lemma raising_body_silent d e segs explode verbose doc pt body ex :
  try_body (fun be tr => process_entity d be segs explode verbose doc tr)
           e segs explode verbose doc pt = Some body ->
  outcome body = Raise ex ->
  emitted body = [] /\ filter is_warning (printed body) = [].
Proof.
  assert (Hsilent : forall c : M unit,
             c empty_world = (Raise ex, empty_world) ->
             emitted c = [] /\ filter is_warning (printed c) = []).
  { intros c Hc. unfold emitted, printed. rewrite Hc. split; reflexivity. }
  destruct e; cbn [try_body]; try discriminate.
  - intros H Hr; inversion H; subst. apply Hsilent.
    apply lift_then_raises; [reflexivity | exact Hr].
  - intros H Hr; inversion H; subst. apply Hsilent.
    apply lift_then_raises; [reflexivity | exact Hr].
  - intros H Hr; inversion H; subst. apply Hsilent.
    apply lift_then_raises; [| exact Hr].
    intros pts. destruct (truthy pts); reflexivity.
  - intros H Hr; inversion H; subst. apply Hsilent.
    unfold outcome in Hr.
    destruct (CIRCLE_try_cases center radius segs pt empty_world)
      as [[ex' Hc]|[pts [cx [cy [r Hc]]]]]; rewrite Hc in *; simpl in Hr;
      congruence.
  - intros H Hr; inversion H; subst. apply Hsilent.
    unfold outcome in Hr.
    destruct (ARC_try_cases center radius start_angle end_angle segs pt empty_world)
      as [[ex' Hc]|[pts [cx [cy [r [sa [ea Hc]]]]]]]; rewrite Hc in *; simpl in Hr;
      congruence.
  - intros H Hr; inversion H; subst. apply Hsilent.
    apply lift_then_raises; [reflexivity | exact Hr].
  - intros H Hr; inversion H; subst.
    apply (SPLINE_try_raises _ _ _ _ ex). exact Hr.
  - destruct explode; [|discriminate].
    intros H Hr; inversion H; subst.
    apply (INSERT_try_raises d _ _ _ _ _ _ _ _ ex). exact Hr.
Qed.

Lemma INSERT_try_block_missing process name insert xscale yscale rotation
      verbose doc nm ins ix iy sx sy rot :
  name = Ok nm -> insert = Ok ins ->
  getitem ins 0 = Ok ix -> getitem ins 1 = Ok iy ->
  getattr xscale 1 = Ok sx -> getattr yscale 1 = Ok sy ->
  getattr rotation 0 = Ok rot ->
  blocks_get (blocks doc) nm = None ->
  INSERT_try process name insert xscale yscale rotation verbose doc empty_world
  = (Ok tt,
     mkWorld []
       ((if verbose then [Expanding_INSERT nm [ix; iy] sx sy rot] else [])
        ++ [Warning ("Block '" ++ nm ++ "' not found.") None])).
Proof.
  intros -> -> Hix Hiy Hsx Hsy Hrot Hblk.
  unfold INSERT_try, bindM, lift.
  rewrite Hix, Hiy, Hsx, Hsy, Hrot, Hblk.
  destruct verbose; reflexivity.
Qed.

Lemma SPLINE_try_not_approximated fit_points control_points segs pt ex :
  spline_to_poly_try fit_points control_points segs = Raise ex ->
  SPLINE_try fit_points control_points segs pt empty_world
  = (Ok tt, mkWorld [] [Warning "spline_to_poly failed" (Some ex)]).
Proof.
  intros H.
  unfold SPLINE_try, spline_to_poly, kwarg, bindM, try_except, lift.
  rewrite H. simpl. rewrite transform_all_nil. reflexivity.
Qed.

Lemma failure_observed d e segs explode verbose doc pt :
  fails_internally d e segs explode verbose doc pt ->
  emitted (process_entity (S d) e segs explode verbose doc pt) = []
  /\ exists traces what ex,
       printed (process_entity (S d) e segs explode verbose doc pt)
       = traces ++ [Warning what ex]
       /\ filter is_warning traces = [].
Proof.
  intros [body ex Hbody Hraise
         | name insert xscale yscale rotation nm ins ix iy sx sy rot
                He Hexp Hname Hins Hix Hiy Hsx Hsy Hrot Hblk
         | fit_points control_points ex He Hspline].
  - destruct (process_entity_try_body _ _ _ _ _ _ _ _ Hbody) as [what Heq].
    pose proof (try_body_appends _ _ _ _ _ _ _ _ Hbody) as Happ.
    destruct (raising_body_silent _ _ _ _ _ _ _ _ _ Hbody Hraise) as [Hout Herr].
    unfold emitted, printed. rewrite Heq.
    rewrite traced_try_out, traced_try_stderr by exact Happ.
    rewrite Hout, Hraise. split; [reflexivity|].
    exists ((if verbose then [Processing_entity (dxftype e)] else [])
            ++ printed body), what, (Some ex).
    split.
    + simpl. rewrite <- app_assoc. reflexivity.
    + rewrite filter_app, Herr. destruct verbose; reflexivity.
  - subst e explode.
    pose proof (INSERT_try_block_missing
                  (fun be tr => process_entity d be segs true verbose doc tr)
                  _ _ _ _ _ verbose doc _ _ _ _ _ _ _
                  Hname Hins Hix Hiy Hsx Hsy Hrot Hblk) as Hrun.
    unfold emitted, printed. rewrite process_entity_INSERT_explode.
    rewrite traced_try_out, traced_try_stderr
      by (apply INSERT_try_appends; intros; apply process_entity_appends).
    unfold emitted, printed, outcome. rewrite Hrun. simpl.
    split; [reflexivity|].
    exists ((if verbose then [Processing_entity "INSERT"] else [])
            ++ (if verbose then [Expanding_INSERT nm [ix; iy] sx sy rot] else [])),
      ("Block '" ++ nm ++ "' not found.")%string, None.
    split.
    + rewrite app_nil_r, <- app_assoc. reflexivity.
    + destruct verbose; reflexivity.
  - subst e.
    pose proof (SPLINE_try_not_approximated _ _ _ pt _ Hspline) as Hrun.
    unfold emitted, printed. cbn [process_entity].
    rewrite traced_try_out, traced_try_stderr by apply SPLINE_try_appends.
    unfold emitted, printed, outcome. rewrite Hrun. simpl.
    split; [reflexivity|].
    exists (if verbose then [Processing_entity "SPLINE"] else []),
      "spline_to_poly failed"%string, (Some ex).
    split.
    + destruct verbose; reflexivity.
    + destruct verbose; reflexivity.
Qed.

(** C3. An entity whose normalisation fails internally (the [try]
    body of its branch raises, or it is an expanded block instance
    whose block is missing, or it is a spline that cannot be
    approximated) lets [process_entity] return normally, adds no
    record, leaves the records accumulated so far as they were, and
    prints exactly one warning (after the trace lines that [verbose]
    asks for).  In the loop over a block and in the main loop, the
    records produced with the failing entity among its siblings are
    those produced without it. *)
Theorem fault_isolation d e segs explode verbose doc pt :
  fails_internally d e segs explode verbose doc pt ->
  forall w,
    let run := process_entity (S d) e segs explode verbose doc pt w in
    fst run = Ok tt
    /\ out (snd run) = out w
    /\ (exists traces what ex,
           stderr (snd run) = stderr w ++ traces ++ [Warning what ex]
           /\ filter is_warning traces = [])
    /\ (forall before after,
           out (snd (for_each (before ++ e :: after)
                       (fun be => process_entity (S d) be segs explode verbose
                                                 doc pt) w))
           = out (snd (for_each (before ++ after)
                         (fun be => process_entity (S d) be segs explode verbose
                                                   doc pt) w)))
    /\ (pt = None ->
        forall before after,
          out (snd (main_loop (S d) (before ++ e :: after)
                              (mkArgs segs explode verbose) doc w))
          = out (snd (main_loop (S d) (before ++ after)
                                (mkArgs segs explode verbose) doc w))).
Proof.
  intros Hfail w run. subst run.
  destruct (failure_observed _ _ _ _ _ _ _ Hfail)
    as [Hout [traces [what [ex [Herr Htr]]]]].
  pose proof (process_entity_appends (S d) e segs explode verbose doc pt) as Happ.
  split; [apply process_entity_returns|].
  split; [rewrite (out_any_world _ w Happ), Hout; apply app_nil_r|].
  split.
  { exists traces, what, ex. split; [|exact Htr].
    rewrite (stderr_any_world _ w Happ), Herr. reflexivity. }
  split.
  - intros before after.
    rewrite !for_each_out;
      try (intros; apply process_entity_appends);
      try (intros; apply process_entity_returns).
    f_equal.
    apply (flat_map_without
             (fun be => emitted (process_entity (S d) be segs explode verbose
                                                doc pt))).
    exact Hout.
  - intros -> before after.
    rewrite !main_loop_out.
    cbn [args_approx_segs args_explode_inserts args_verbose].
    f_equal.
    apply (flat_map_without
             (fun be => emitted (process_entity (S d) be segs explode verbose
                                                doc None))).
    exact Hout.
Qed.

Lemma fault_isolation_witness :
  let e := INSERT (Ok "GHOST"%string) (Ok [0; 0]) (Raise AttributeError)
                  (Raise AttributeError) (Raise AttributeError) in
  let doc := mkDocument [] [] in
  let run := process_entity 1 e 36 true false doc None empty_world in
  fails_internally 0 e 36 true false doc None
  /\ fst run = Ok tt
  /\ out (snd run) = out empty_world.
Proof.
  intros e doc run.
  assert (Hfail : fails_internally 0 e 36 true false doc None).
  { apply (block_missing 0 e 36 true false doc None
             (Ok "GHOST"%string) (Ok [0; 0]) (Raise AttributeError)
             (Raise AttributeError) (Raise AttributeError)
             "GHOST"%string [0; 0] 0 0 1 1 0); reflexivity. }
  split; [exact Hfail|].
  pose proof (fault_isolation 0 e 36%Z true false doc None Hfail empty_world)
    as H.
  split; [exact (proj1 H) | exact (proj1 (proj2 H))].
Defined.

(** ** A nested block instance, end to end *)

Lemma transform_point_translation (x y tx ty : R) :
  transform_point [x; y] [tx; ty] 1 1 0 = Ok [x + tx; y + ty].
Proof.
  rewrite transform_point_xy. unfold radians.
  replace (0 * (PI / 180)) with 0 by ring.
  rewrite cos_0, sin_0.
  do 2 f_equal; [ring | f_equal; ring].
Qed.

Lemma emitted_LINE_placed s e x0 y0 x1 y1 tr p q :
  getitem s 0 = Ok x0 -> getitem s 1 = Ok y0 ->
  getitem e 0 = Ok x1 -> getitem e 1 = Ok y1 ->
  transform_point_star [x0; y0] tr = Ok p ->
  transform_point_star [x1; y1] tr = Ok q ->
  emitted (LINE_try (Ok s) (Ok e) (Some tr)) = [polyline [p; q]].
Proof.
  intros Hs0 Hs1 He0 He1 Hp Hq.
  unfold emitted, LINE_try, bindM, lift. cbn [bind].
  rewrite Hs0; cbn [bind]. rewrite Hs1; cbn [bind].
  rewrite He0; cbn [bind]. rewrite He1; cbn [bind].
  rewrite Hp; cbn [bind]. rewrite Hq.
  reflexivity.
Qed.

Lemma emitted_process_entity_LINE d start end_ segs explode verbose doc pt :
  emitted (process_entity (S d) (LINE start end_) segs explode verbose doc pt)
  = emitted (LINE_try start end_ pt).
Proof.
  unfold emitted at 1. cbn [process_entity].
  rewrite traced_try_out by apply LINE_try_appends. reflexivity.
Qed.

(** Block A holds an instance of block B ten units to the right; B
    holds the segment from (0,0) to (1,0).  An instance of A placed a
    hundred units to the right yields the segment from (10,0) to
    (11,0): the placement of A does not reach the entities of B. *)
Example nested_instance_placed_by_inner_insert :
  let at_ (x : R) (name : string) :=
    INSERT (Ok name) (Ok [x; 0]) (Raise AttributeError) (Raise AttributeError)
           (Raise AttributeError) in
  let doc :=
    mkDocument [at_ 100 "A"%string]
               [("A"%string, [at_ 10 "B"%string]);
                ("B"%string, [LINE (Ok [0; 0]) (Ok [1; 0])])] in
  out (main 3 (parse_args None true false) doc) = [polyline [[10; 0]; [11; 0]]].
Proof.
  intros at_ doc. rewrite main_out.
  cbn [modelspace doc flat_map args_approx_segs args_explode_inserts args_verbose
       parse_args kwarg].
  rewrite app_nil_r. unfold emitted at 1, at_.
  rewrite (process_entity_INSERT_out 1 _ _ _ _ _ _ _ _
             "A"%string [100; 0] 100 0 1 1 0 [at_ 10 "B"%string]);
    try reflexivity.
  cbn [flat_map out empty_world]. rewrite app_nil_r.
  unfold emitted at 1, at_.
  rewrite (process_entity_INSERT_out 0 _ _ _ _ _ _ _ _
             "B"%string [10; 0] 10 0 1 1 0 [LINE (Ok [0; 0]) (Ok [1; 0])]);
    try reflexivity.
  cbn [flat_map out empty_world]. rewrite app_nil_r.
  rewrite emitted_process_entity_LINE. cbn [app].
  transitivity [polyline [[0 + 10; 0 + 0]; [1 + 10; 0 + 0]]].
  - apply (emitted_LINE_placed [0; 0] [1; 0] 0 0 1 0);
      try reflexivity; apply transform_point_translation.
  - replace (0 + 10) with 10 by ring. replace (0 + 0) with 0 by ring.
    replace (1 + 10) with 11 by ring. reflexivity.
Qed.

(** * Further properties of the code *)

(** ** transform_point *)

(** X3. [transform_point] reads only the first two coordinates of the
    point and of the insertion point, and returns a point of exactly
    two coordinates; a point with fewer than two coordinates raises
    [IndexError]; with unit scale and no rotation the placement is the
    translation by the insertion point. *)
Theorem transform_point_projects (x y tx ty sx sy rot : R)
        (rest rest' : list R) :
  transform_point (x :: y :: rest) (tx :: ty :: rest') sx sy rot
  = transform_point [x; y] [tx; ty] sx sy rot
  /\ (exists a b,
        transform_point (x :: y :: rest) (tx :: ty :: rest') sx sy rot
        = Ok [a; b])
  /\ transform_point [] [tx; ty] sx sy rot = Raise IndexError
  /\ transform_point [x] [tx; ty] sx sy rot = Raise IndexError
  /\ transform_point (x :: y :: rest) [tx; ty] 1 1 0 = Ok [x + tx; y + ty].
Proof.
  split; [reflexivity|].
  split; [do 2 eexists; reflexivity|].
  split; [reflexivity|].
  split; [reflexivity|].
  change (transform_point [x; y] [tx; ty] 1 1 0 = Ok [x + tx; y + ty]).
  apply transform_point_translation.
Qed.

Lemma Forall_map_point_at (P : list R -> Prop) (f : R -> list R) (angles : list R) :
  (forall t, P (f t)) -> Forall P (map f angles).
Proof.
  intros Hf. apply Forall_forall. intros p Hp.
  apply in_map_iff in Hp. destruct Hp as [t [<- _]]. apply Hf.
Qed.

(** ** Segment counts of zero or less *)

Lemma sample_arc_negative (cx cy r sa ea : R) (n : Z) :
  (n <= -1)%Z -> sample_arc cx cy r sa ea (Some n) = Ok [].
Proof.
  intros Hn. unfold sample_arc, kwarg.
  rewrite (range_nonpos (n + 1)) by lia. reflexivity.
Qed.

Lemma process_entity_ARC_stderr d center radius sa ea segs explode verbose doc pt w :
  stderr (snd (process_entity (S d) (ARC center radius sa ea) segs explode
                              verbose doc pt w))
  = stderr w ++ (if verbose then [Processing_entity "ARC"] else [])
    ++ printed (ARC_try center radius sa ea segs pt)
    ++ match outcome (ARC_try center radius sa ea segs pt) with
       | Ok _ => []
       | Raise ex => [Warning "ARC error" (Some ex)]
       end.
Proof.
  cbn [process_entity]. apply traced_try_stderr. apply ARC_try_appends.
Qed.

Lemma ARC_try_zero_segments c cx cy r sa ea pt :
  getitem c 0 = Ok cx -> getitem c 1 = Ok cy ->
  ARC_try (Ok c) (Ok r) (Ok sa) (Ok ea) 0 pt empty_world
  = (Raise ZeroDivisionError, empty_world).
Proof.
  intros H0 H1. unfold ARC_try, bindM, lift. rewrite H0, H1.
  destruct pt as [tr|]; rewrite sample_arc_zero; reflexivity.
Qed.

(** X5. What a segment count of zero or less does.  [sample_arc]
    raises [ZeroDivisionError] for 0 and returns no point for a
    negative count; [sample_circle] returns no point for either.  So,
    with or without a placement transform, an ARC entity processed
    with 0 segments adds no record and prints the warning "ARC error",
    a CIRCLE entity processed with 0 or fewer segments adds a polyline
    without points followed by its circle record, and an ARC entity
    processed with a negative count adds a polyline without points
    followed by its arc record. *)
Theorem nonpositive_segment_counts
        d c cx cy r explode verbose doc pt w :
  getitem c 0 = Ok cx -> getitem c 1 = Ok cy ->
  (forall sa ea,
      sample_arc cx cy r sa ea (Some 0%Z) = Raise ZeroDivisionError
      /\ out (snd (process_entity (S d) (ARC (Ok c) (Ok r) (Ok sa) (Ok ea)) 0
                                  explode verbose doc pt w))
         = out w
      /\ stderr (snd (process_entity (S d) (ARC (Ok c) (Ok r) (Ok sa) (Ok ea)) 0
                                     explode verbose doc pt w))
         = stderr w ++ (if verbose then [Processing_entity "ARC"] else [])
           ++ [Warning "ARC error" (Some ZeroDivisionError)])
  /\ (forall segs,
        (segs <= 0)%Z ->
        sample_circle cx cy r (Some segs) = Ok []
        /\ out (snd (process_entity (S d) (CIRCLE (Ok c) (Ok r)) segs explode
                                    verbose doc pt w))
           = out w ++ [polyline []; circle cx cy r])
  /\ (forall segs sa ea,
        (segs <= -1)%Z ->
        sample_arc cx cy r sa ea (Some segs) = Ok []
        /\ out (snd (process_entity (S d) (ARC (Ok c) (Ok r) (Ok sa) (Ok ea)) segs
                                    explode verbose doc pt w))
           = out w ++ [polyline []; arc cx cy r sa ea]).
Proof.
  intros H0 H1. split; [|split].
  - intros sa ea.
    pose proof (ARC_try_zero_segments c cx cy r sa ea pt H0 H1) as Hrun.
    split; [reflexivity|]. split.
    + rewrite process_entity_ARC_out. unfold emitted. rewrite Hrun.
      apply app_nil_r.
    + rewrite process_entity_ARC_stderr. unfold printed, outcome.
      rewrite Hrun. reflexivity.
  - intros segs Hn. split; [apply sample_circle_nonpos; exact Hn|].
    rewrite process_entity_CIRCLE_out. f_equal.
    unfold emitted, CIRCLE_try, bindM, lift. rewrite H0, H1.
    destruct pt as [tr|]; rewrite sample_circle_nonpos by exact Hn; reflexivity.
  - intros segs sa ea Hn. split; [apply sample_arc_negative; exact Hn|].
    rewrite process_entity_ARC_out. f_equal.
    unfold emitted, ARC_try, bindM, lift. rewrite H0, H1.
    destruct pt as [tr|]; rewrite sample_arc_negative by exact Hn; reflexivity.
Qed.

Lemma nonpositive_segment_counts_witness :
  sample_arc 3 4 5 0 90 (Some 0%Z) = Raise ZeroDivisionError
  /\ out (snd (process_entity 1 (ARC (Ok [3; 4]) (Ok 5) (Ok 0) (Ok 90)) 0
                              true false (mkDocument [] []) None empty_world))
     = out empty_world
  /\ stderr (snd (process_entity 1 (ARC (Ok [3; 4]) (Ok 5) (Ok 0) (Ok 90)) 0
                                 true false (mkDocument [] []) None
                                 empty_world))
     = stderr empty_world ++ []
       ++ [Warning "ARC error" (Some ZeroDivisionError)].
Proof.
  apply (proj1 (nonpositive_segment_counts
                  0 [3; 4] 3 4 5 true false (mkDocument [] []) None empty_world
                  eq_refl eq_refl) 0 90).
Defined.

(** ** spline_to_poly *)

Lemma mapM_Forall {A B : Type} (f : A -> result B) (P : B -> Prop) (l : list A) :
  (forall x, In x l -> exists y, f x = Ok y /\ P y) ->
  exists ys, mapM f l = Ok ys /\ Forall P ys.
Proof.
  induction l as [|x xs IH]; intros Hf; cbn [mapM].
  - exists []. split; [reflexivity | constructor].
  - destruct (Hf x (or_introl eq_refl)) as [y [Hy HP]].
    destruct IH as [ys [Hys HPs]];
      [intros x' Hx'; apply Hf; right; exact Hx'|].
    exists (y :: ys). rewrite Hy; cbn [bind]. rewrite Hys; cbn [bind].
    split; [reflexivity | constructor; assumption].
Qed.

Lemma mapM_nth_error {A B : Type} (f : A -> result B) (l : list A) (ys : list B)
      (k : nat) (x : A) :
  mapM f l = Ok ys -> nth_error l k = Some x ->
  exists y, nth_error ys k = Some y /\ f x = Ok y.
Proof.
  revert ys k. induction l as [|x0 xs IH]; intros ys k Hm Hk.
  - destruct k; discriminate.
  - cbn [mapM] in Hm.
    destruct (f x0) as [y0|ex] eqn:E0; cbn [bind] in Hm; [|discriminate].
    destruct (mapM f xs) as [ys0|ex] eqn:Es; cbn [bind] in Hm; [|discriminate].
    inversion Hm; subst ys.
    destruct k as [|k]; cbn [nth_error] in *.
    + inversion Hk; subst. exists y0. split; [reflexivity | exact E0].
    + apply (IH ys0 k eq_refl Hk).
Qed.

Lemma getitem_in_bounds {A : Type} (l : list A) (i : Z) :
  (0 <= i < Z.of_nat (List.length l))%Z ->
  exists a, getitem l i = Ok a /\ nth_error l (Z.to_nat i) = Some a.
Proof.
  intros Hi. unfold getitem.
  destruct (Z.ltb_spec i 0) as [Hneg|_]; [lia|].
  destruct (Z.ltb_spec i 0) as [Hneg|_]; [lia|].
  destruct (nth_error l (Z.to_nat i)) as [a|] eqn:E.
  - exists a. split; reflexivity.
  - apply nth_error_None in E. lia.
Qed.

Lemma int_of_float_IZR (k : Z) : (0 <= k)%Z -> int_of_float (IZR k) = k.
Proof.
  intros Hk. unfold int_of_float.
  destruct (Rle_dec 0 (IZR k)) as [_|Hn].
  - symmetry. apply Int_part_spec. lra.
  - exfalso. apply Hn. apply (IZR_le 0 k). exact Hk.
Qed.

Lemma int_of_float_bounds (x : R) (m : Z) :
  0 <= x <= IZR m -> (0 <= int_of_float x <= m)%Z.
Proof.
  intros [H0 Hm]. unfold int_of_float.
  destruct (Rle_dec 0 x) as [_|Hn]; [|contradiction].
  destruct (base_Int_part x) as [Hlo Hhi].
  split.
  - assert (H : (-1 < Int_part x)%Z) by (apply lt_IZR; lra). lia.
  - apply le_IZR. lra.
Qed.

(** The index [int(i / segments * (len(control) - 1))]. *)
Lemma control_index_bounds (i n : Z) (len : nat) :
  (1 <= n)%Z -> (0 <= i <= n)%Z -> (1 <= len)%nat ->
  (0 <= int_of_float (IZR i / IZR n * IZR (Z.of_nat len - 1))
   < Z.of_nat len)%Z.
Proof.
  intros Hn Hi Hlen.
  assert (Hn' : 0 < IZR n) by (apply (IZR_lt 0 n); lia).
  assert (Hi0 : 0 <= IZR i) by (apply (IZR_le 0 i); lia).
  assert (Hin : IZR i <= IZR n) by (apply IZR_le; lia).
  assert (Hl : 0 <= IZR (Z.of_nat len - 1)) by (apply (IZR_le 0); lia).
  assert (Hq0 : 0 <= IZR i / IZR n)
    by (apply Rmult_le_pos; [exact Hi0 | left; apply Rinv_0_lt_compat; exact Hn']).
  assert (Hq1 : IZR i / IZR n <= 1).
  { apply (Rmult_le_reg_r (IZR n)); [exact Hn'|].
    unfold Rdiv. rewrite Rmult_assoc, Rinv_l by lra. lra. }
  assert (Hb : 0 <= IZR i / IZR n * IZR (Z.of_nat len - 1)
               <= IZR (Z.of_nat len - 1)) by (split; nra).
  pose proof (int_of_float_bounds _ _ Hb). lia.
Qed.

(** X6. The priority of [spline_to_poly].  Fit points, when the
    spline has any, are returned as they are, whatever the control
    points and the segment count, and nothing is printed.  A spline
    with neither fit points nor control points (each missing or empty)
    gives the empty list, also silently. *)
Theorem spline_to_poly_priority (segments : option Z) (w : world) :
  (forall fit control_points,
      fit <> [] ->
      spline_to_poly (Ok fit) control_points segments w = (Ok fit, w))
  /\ (forall fit_points control_points,
        fit_points = Ok [] \/ fit_points = Raise AttributeError ->
        control_points = Ok [] \/ control_points = Raise AttributeError ->
        spline_to_poly fit_points control_points segments w = (Ok [], w)).
Proof.
  split.
  - intros fit cp Hfit.
    destruct fit as [|p fit']; [contradiction|]. reflexivity.
  - intros fp cp [-> | ->] [-> | ->]; reflexivity.
Qed.

Lemma spline_to_poly_priority_witness :
  spline_to_poly (Ok [[1; 2; 0]; [3; 4; 0]]) (Ok [[9; 9]]) (Some 7%Z) empty_world
  = (Ok [[1; 2; 0]; [3; 4; 0]], empty_world).
Proof.
  apply (proj1 (spline_to_poly_priority (Some 7%Z) empty_world)).
  discriminate.
Defined.

Lemma spline_to_poly_try_control fit_points control (n : Z) :
  fit_points = Ok [] \/ fit_points = Raise AttributeError ->
  control <> [] ->
  spline_to_poly_try fit_points (Ok control) n
  = (pts <- mapM (fun i =>
                    q <- truediv (IZR i) n ;;
                    getitem control
                      (int_of_float
                         (q * IZR (Z.of_nat (List.length control) - 1))))
                 (range (n + 1)) ;;
     Ok (Some pts)).
Proof.
  intros Hfit Hc. destruct control as [|c cs]; [contradiction|].
  destruct Hfit as [-> | ->]; reflexivity.
Qed.

(** X7. A spline without fit points but with control points, sampled
    with [segments >= 1]: [spline_to_poly] returns [segments + 1]
    points, each of them one of the control points, the first being
    the first control point and the last the last one; nothing is
    printed and nothing raises. *)
Theorem spline_control_resampling fit_points control (n : Z) (w : world) :
  fit_points = Ok [] \/ fit_points = Raise AttributeError ->
  control <> [] ->
  (1 <= n)%Z ->
  exists pts,
    spline_to_poly fit_points (Ok control) (Some n) w = (Ok pts, w)
    /\ List.length pts = S (Z.to_nat n)
    /\ Forall (fun p => In p control) pts
    /\ nth_error pts 0 = nth_error control 0
    /\ nth_error pts (Z.to_nat n)
       = nth_error control (List.length control - 1).
Proof.
  intros Hfit Hc Hn.
  assert (Hlen : (1 <= List.length control)%nat)
    by (destruct control; [contradiction | simpl; lia]).
  set (F := fun i : Z =>
              q <- truediv (IZR i) n ;;
              getitem control
                (int_of_float (q * IZR (Z.of_nat (List.length control) - 1)))).
  assert (HF : forall i, (0 <= i <= n)%Z ->
                 exists p, F i = Ok p
                           /\ nth_error control
                                (Z.to_nat (int_of_float
                                   (IZR i / IZR n
                                    * IZR (Z.of_nat (List.length control) - 1))))
                              = Some p).
  { intros i Hi. unfold F. rewrite truediv_nonzero by lia. cbn [bind].
    apply getitem_in_bounds. apply control_index_bounds; assumption. }
  destruct (mapM_Forall F (fun p => In p control) (range (n + 1))) as [pts [Hm Hin]].
  { intros i Hi. apply range_In in Hi.
    destruct (HF i) as [p [Hp Hnth]]; [lia|].
    exists p. split; [exact Hp|]. apply (nth_error_In _ _ Hnth). }
  exists pts. split; [|split; [|split; [|split]]].
  - unfold spline_to_poly, kwarg, try_except, bindM, lift.
    rewrite spline_to_poly_try_control by assumption.
    fold F. rewrite Hm. reflexivity.
  - rewrite (mapM_length _ _ _ Hm), range_length. lia.
  - exact Hin.
  - destruct (mapM_nth_error F _ _ 0%nat 0%Z Hm) as [y [Hy HFy]].
    { rewrite range_nth_error by lia. reflexivity. }
    destruct (HF 0%Z) as [p [Hp Hnth]]; [lia|].
    rewrite Hy.
    replace (IZR 0 / IZR n * IZR (Z.of_nat (List.length control) - 1))
      with (IZR 0) in Hnth by (unfold Rdiv; ring).
    rewrite int_of_float_IZR in Hnth by lia.
    change (Z.to_nat 0) with 0%nat in Hnth. congruence.
  - destruct (mapM_nth_error F _ _ (Z.to_nat n) n Hm) as [y [Hy HFy]].
    { rewrite range_nth_error by lia. f_equal. lia. }
    destruct (HF n) as [p [Hp Hnth]]; [lia|].
    rewrite Hy.
    assert (Hn0 : IZR n <> 0) by (apply not_0_IZR; lia).
    replace (IZR n / IZR n * IZR (Z.of_nat (List.length control) - 1))
      with (IZR (Z.of_nat (List.length control) - 1)) in Hnth by (field; exact Hn0).
    rewrite int_of_float_IZR in Hnth by lia.
    replace (Z.to_nat (Z.of_nat (List.length control) - 1))
      with (List.length control - 1)%nat in Hnth by lia.
    congruence.
Qed.

Lemma spline_control_resampling_witness :
  exists pts,
    spline_to_poly (Raise AttributeError) (Ok [[0; 0]; [1; 2]; [3; 1]])
                   (Some 5%Z) empty_world
    = (Ok pts, empty_world)
    /\ List.length pts = S (Z.to_nat 5)
    /\ Forall (fun p => In p [[0; 0]; [1; 2]; [3; 1]]) pts
    /\ nth_error pts 0 = nth_error [[0; 0]; [1; 2]; [3; 1]] 0
    /\ nth_error pts (Z.to_nat 5)
       = nth_error [[0; 0]; [1; 2]; [3; 1]]
                   (List.length [[0; 0]; [1; 2]; [3; 1]] - 1).
Proof.
  apply (spline_control_resampling (Raise AttributeError)
           [[0; 0]; [1; 2]; [3; 1]] 5%Z empty_world).
  - right; reflexivity.
  - discriminate.
  - lia.
Defined.

Lemma world_eta (w : world) : mkWorld (out w) (stderr w ++ []) = w.
Proof. destruct w; simpl. rewrite app_nil_r. reflexivity. Qed.

(** X8. [spline_to_poly] never raises and never touches [out]: on any
    spline it returns a list and prints at most one line, the warning
    "spline_to_poly failed", and when it prints that warning the list
    it returns is empty. *)
Theorem spline_to_poly_contained fit_points control_points segments w :
  exists pts msgs,
    spline_to_poly fit_points control_points segments w
    = (Ok pts, mkWorld (out w) (stderr w ++ msgs))
    /\ (msgs = []
        \/ (pts = []
            /\ exists ex, msgs = [Warning "spline_to_poly failed" (Some ex)])).
Proof.
  unfold spline_to_poly, try_except, bindM, lift.
  destruct (spline_to_poly_try fit_points control_points (kwarg 48%Z segments))
    as [[pts|]|ex]; cbn.
  - exists pts, []. rewrite world_eta. split; [reflexivity | left; reflexivity].
  - exists [], []. rewrite world_eta. split; [reflexivity | left; reflexivity].
  - exists [], [Warning "spline_to_poly failed" (Some ex)].
    split; [reflexivity|]. right. split; [reflexivity|]. exists ex. reflexivity.
Qed.

Lemma process_entity_SPLINE_out d fit_points control_points segs explode verbose
      doc pt w :
  out (snd (process_entity (S d) (SPLINE fit_points control_points) segs explode
                           verbose doc pt w))
  = out w ++ emitted (SPLINE_try fit_points control_points segs pt).
Proof.
  cbn [process_entity]. apply traced_try_out. apply SPLINE_try_appends.
Qed.

Lemma process_entity_SPLINE_stderr d fit_points control_points segs explode
      verbose doc pt w :
  stderr (snd (process_entity (S d) (SPLINE fit_points control_points) segs
                              explode verbose doc pt w))
  = stderr w ++ (if verbose then [Processing_entity "SPLINE"] else [])
    ++ printed (SPLINE_try fit_points control_points segs pt)
    ++ match outcome (SPLINE_try fit_points control_points segs pt) with
       | Ok _ => []
       | Raise ex => [Warning "SPLINE error" (Some ex)]
       end.
Proof.
  cbn [process_entity]. apply traced_try_stderr. apply SPLINE_try_appends.
Qed.

(** X9. A spline that has only control points, sampled with a segment
    count of zero or less, yields no record.  With 0 segments the
    division raises inside [spline_to_poly], which prints its warning
    with [ZeroDivisionError]; with a negative count the loop does not
    run and nothing is printed beyond the trace line of [verbose]. *)
Theorem spline_nonpositive_segments
        d fit_points control explode verbose doc pt w :
  fit_points = Ok [] \/ fit_points = Raise AttributeError ->
  control <> [] ->
  let e := SPLINE fit_points (Ok control) in
  (out (snd (process_entity (S d) e 0 explode verbose doc pt w)) = out w
   /\ stderr (snd (process_entity (S d) e 0 explode verbose doc pt w))
      = stderr w ++ (if verbose then [Processing_entity "SPLINE"] else [])
        ++ [Warning "spline_to_poly failed" (Some ZeroDivisionError)])
  /\ (forall segs,
        (segs <= -1)%Z ->
        out (snd (process_entity (S d) e segs explode verbose doc pt w)) = out w
        /\ stderr (snd (process_entity (S d) e segs explode verbose doc pt w))
           = stderr w ++ (if verbose then [Processing_entity "SPLINE"] else [])).
Proof.
  intros Hfit Hc e. subst e.
  assert (H0 : SPLINE_try fit_points (Ok control) 0 pt empty_world
               = (Ok tt, mkWorld [] [Warning "spline_to_poly failed"
                                             (Some ZeroDivisionError)])).
  { apply SPLINE_try_not_approximated.
    rewrite spline_to_poly_try_control by assumption. reflexivity. }
  assert (Hneg : forall segs, (segs <= -1)%Z ->
                   SPLINE_try fit_points (Ok control) segs pt empty_world
                   = (Ok tt, empty_world)).
  { intros segs Hs.
    unfold SPLINE_try, spline_to_poly, kwarg, try_except, bindM, lift.
    rewrite spline_to_poly_try_control by assumption.
    rewrite (range_nonpos (segs + 1)) by lia. cbn.
    rewrite transform_all_nil. reflexivity. }
  split.
  - split.
    + rewrite process_entity_SPLINE_out. unfold emitted. rewrite H0.
      apply app_nil_r.
    + rewrite process_entity_SPLINE_stderr. unfold printed, outcome.
      rewrite H0. cbn. rewrite ?app_nil_r. reflexivity.
  - intros segs Hs. split.
    + rewrite process_entity_SPLINE_out. unfold emitted.
      rewrite (Hneg segs Hs). apply app_nil_r.
    + rewrite process_entity_SPLINE_stderr. unfold printed, outcome.
      rewrite (Hneg segs Hs). cbn. rewrite ?app_nil_r. reflexivity.
Qed.

Lemma spline_nonpositive_segments_witness :
  let e := SPLINE (Ok []) (Ok [[0; 0]; [1; 1]]) in
  out (snd (process_entity 1 e 0 false false (mkDocument [] []) None empty_world))
  = out empty_world
  /\ stderr (snd (process_entity 1 e 0 false false (mkDocument [] []) None
                                 empty_world))
     = stderr empty_world ++ []
       ++ [Warning "spline_to_poly failed" (Some ZeroDivisionError)].
Proof.
  apply (proj1 (spline_nonpositive_segments
                  0 (Ok []) [[0; 0]; [1; 1]] false false (mkDocument [] [])
                  None empty_world (or_introl eq_refl)
                  ltac:(discriminate))).
Defined.

(** ** Exceptions are contained; the output only grows *)

(** X10. No exception leaves [process_entity] below the recursion
    limit, and none leaves the loop of [main] at any depth: every
    entity is processed, whatever the entities before it did. *)
Theorem exceptions_never_escape :
  (forall d e segs explode verbose doc pt w,
      fst (process_entity (S d) e segs explode verbose doc pt w) = Ok tt)
  /\ (forall depth entities a doc w,
        fst (main_loop depth entities a doc w) = Ok tt).
Proof.
  split.
  - intros. apply process_entity_returns.
  - intros depth entities a doc w. unfold main_loop.
    apply for_each_returns. intros e w'. apply try_except_warn_returns.
Qed.

(** X11. [process_entity] and the loop of [main] only append: the
    records and the lines already there stay, in place and in order,
    and what is added after them does not depend on them. *)
Theorem output_only_grows :
  (forall depth e segs explode verbose doc pt,
      exists r recs msgs,
        forall w,
          process_entity depth e segs explode verbose doc pt w
          = (r, mkWorld (out w ++ recs) (stderr w ++ msgs)))
  /\ (forall depth entities a doc,
        exists r recs msgs,
          forall w,
            main_loop depth entities a doc w
            = (r, mkWorld (out w ++ recs) (stderr w ++ msgs))).
Proof.
  split.
  - intros depth e segs explode verbose doc pt.
    set (c := process_entity depth e segs explode verbose doc pt).
    exists (outcome c), (emitted c), (printed c). intros w.
    apply (process_entity_appends depth e segs explode verbose doc pt w).
  - intros depth entities a doc.
    set (c := main_loop depth entities a doc).
    assert (Hc : appends c).
    { unfold c, main_loop. apply appends_for_each. intros e.
      apply appends_try_except; [apply process_entity_appends|].
      intros ex. apply appends_print. }
    exists (outcome c), (emitted c), (printed c). intros w. apply (Hc w).
Qed.

(** ** Records, results and lines of composed computations *)

Lemma run_bindM {A B : Type} (c : M A) (k : A -> M B) :
  appends c -> (forall a, appends (k a)) ->
  outcome (bindM c k)
  = match outcome c with
    | Ok a => outcome (k a)
    | Raise ex => Raise ex
    end
  /\ emitted (bindM c k)
     = emitted c ++ match outcome c with
                    | Ok a => emitted (k a)
                    | Raise _ => []
                    end
  /\ printed (bindM c k)
     = printed c ++ match outcome c with
                    | Ok a => printed (k a)
                    | Raise _ => []
                    end.
Proof.
  intros Hc Hk. unfold outcome, emitted, printed, bindM.
  destruct (c empty_world) as [[a|ex] w1] eqn:E; cbn [fst snd].
  - rewrite (Hk a w1). unfold outcome, extend; cbn [fst snd out stderr].
    repeat split; reflexivity.
  - rewrite !app_nil_r. repeat split; reflexivity.
Qed.

Lemma run_try_except {A : Type} (body : M A) (handler : exn -> M A) :
  appends body -> (forall ex, appends (handler ex)) ->
  outcome (try_except body handler)
  = match outcome body with
    | Ok a => Ok a
    | Raise ex => outcome (handler ex)
    end
  /\ emitted (try_except body handler)
     = emitted body ++ match outcome body with
                       | Ok _ => []
                       | Raise ex => emitted (handler ex)
                       end
  /\ printed (try_except body handler)
     = printed body ++ match outcome body with
                       | Ok _ => []
                       | Raise ex => printed (handler ex)
                       end.
Proof.
  intros Hb Hh. unfold outcome, emitted, printed, try_except.
  destruct (body empty_world) as [[a|ex] w1] eqn:E; cbn [fst snd].
  - rewrite !app_nil_r. repeat split; reflexivity.
  - rewrite (Hh ex w1). unfold outcome, extend; cbn [fst snd out stderr].
    repeat split; reflexivity.
Qed.

Lemma same_records_refl {A : Type} (c : M A) : same_records c c.
Proof. split; reflexivity. Qed.

Lemma same_records_bindM {A B : Type} (c c' : M A) (k k' : A -> M B) :
  appends c -> appends c' ->
  (forall a, appends (k a)) -> (forall a, appends (k' a)) ->
  same_records c c' -> (forall a, same_records (k a) (k' a)) ->
  same_records (bindM c k) (bindM c' k').
Proof.
  intros Hc Hc' Hk Hk' [Ho He] Hkk. unfold same_records.
  destruct (run_bindM c k Hc Hk) as [-> [-> _]].
  destruct (run_bindM c' k' Hc' Hk') as [-> [-> _]].
  rewrite <- Ho, <- He.
  destruct (outcome c) as [a|ex]; [|split; reflexivity].
  destruct (Hkk a) as [-> ->]. split; reflexivity.
Qed.

Lemma same_records_try_except {A : Type} (b b' : M A) (h h' : exn -> M A) :
  appends b -> appends b' ->
  (forall ex, appends (h ex)) -> (forall ex, appends (h' ex)) ->
  same_records b b' -> (forall ex, same_records (h ex) (h' ex)) ->
  same_records (try_except b h) (try_except b' h').
Proof.
  intros Hb Hb' Hh Hh' [Ho He] Hhh. unfold same_records.
  destruct (run_try_except b h Hb Hh) as [-> [-> _]].
  destruct (run_try_except b' h' Hb' Hh') as [-> [-> _]].
  rewrite <- Ho, <- He.
  destruct (outcome b) as [a|ex]; [split; reflexivity|].
  destruct (Hhh ex) as [-> ->]. split; reflexivity.
Qed.

Lemma same_records_for_each {A : Type} (l : list A) (body body' : A -> M unit) :
  (forall x, appends (body x)) -> (forall x, appends (body' x)) ->
  (forall x, same_records (body x) (body' x)) ->
  same_records (for_each l body) (for_each l body').
Proof.
  intros Hb Hb' Hs. induction l as [|x xs IH]; cbn [for_each].
  - apply same_records_refl.
  - apply same_records_bindM; try (intros; apply appends_for_each); auto.
Qed.

Lemma same_records_when_print (b b' : bool) (t t' : message) :
  same_records (when b (print t)) (when b' (print t')).
Proof. destruct b, b'; split; reflexivity. Qed.

(** ** [verbose] changes no record *)

Lemma same_records_INSERT_try (p p' : entity -> option transform -> M unit)
      name insert xscale yscale rotation (v v' : bool) doc :
  (forall be tr, appends (p be tr)) -> (forall be tr, appends (p' be tr)) ->
  (forall be tr, same_records (p be tr) (p' be tr)) ->
  same_records (INSERT_try p name insert xscale yscale rotation v doc)
               (INSERT_try p' name insert xscale yscale rotation v' doc).
Proof.
  intros Hp Hp' Hs. unfold INSERT_try.
  repeat (apply same_records_bindM;
          [ apply appends_lift
          | apply appends_lift
          | intros; repeat (first [appends_step | apply Hp])
          | intros; repeat (first [appends_step | apply Hp'])
          | apply same_records_refl
          | intros ? ]).
  apply same_records_bindM.
  - apply appends_when, appends_print.
  - apply appends_when, appends_print.
  - intros; repeat (first [appends_step | apply Hp]).
  - intros; repeat (first [appends_step | apply Hp']).
  - apply same_records_when_print.
  - intros _. destruct (blocks_get (blocks doc) a) as [blk|].
    + apply same_records_for_each; intros; auto.
    + apply same_records_refl.
Qed.

Lemma same_records_traced (v v' : bool) (t : message) (c c' : M unit) :
  appends c -> appends c' -> same_records c c' ->
  same_records (bindM (when v (print t)) (fun _ => c))
               (bindM (when v' (print t)) (fun _ => c')).
Proof.
  intros Hc Hc' Hs.
  apply same_records_bindM; auto using appends_when, appends_print.
  apply same_records_when_print.
Qed.

Lemma process_entity_same_records depth :
  forall e segs explode doc pt,
    same_records (process_entity depth e segs explode true doc pt)
                 (process_entity depth e segs explode false doc pt).
Proof.
  induction depth as [|d IH]; intros e segs explode doc pt.
  - apply same_records_refl.
  - assert (Happ : forall v be tr,
               appends (process_entity d be segs explode v doc tr))
      by (intros; apply process_entity_appends).
    cbn [process_entity].
    destruct e;
      try (apply same_records_traced;
           [ apply appends_try_except; [|intros; apply appends_print]
           | apply appends_try_except; [|intros; apply appends_print]
           | apply same_records_refl ];
           first [ apply LINE_try_appends | apply LWPOLYLINE_try_appends
                 | apply POLYLINE_try_appends | apply CIRCLE_try_appends
                 | apply ARC_try_appends | apply ELLIPSE_try_appends
                 | apply SPLINE_try_appends ]).
    + destruct explode.
      * apply same_records_traced.
        -- apply appends_try_except; [|intros; apply appends_print].
           apply INSERT_try_appends. intros; apply Happ.
        -- apply appends_try_except; [|intros; apply appends_print].
           apply INSERT_try_appends. intros; apply Happ.
        -- apply same_records_try_except;
             try (intros; apply appends_print);
             try (apply INSERT_try_appends; intros; apply Happ).
           ++ apply same_records_INSERT_try; intros; auto.
           ++ intros; apply same_records_refl.
      * apply same_records_traced;
          try apply appends_when; try apply appends_print.
        apply same_records_when_print.
    + apply same_records_traced;
        try apply appends_when; try apply appends_print.
      apply same_records_when_print.
Qed.

(** X13. The [verbose] flag changes what is printed and nothing else:
    with it on or off, [process_entity] returns the same result and
    appends the same records, and [main] writes the same output. *)
Theorem verbose_changes_no_record :
  (forall depth e segs explode doc pt w w',
      out w = out w' ->
      fst (process_entity depth e segs explode true doc pt w)
      = fst (process_entity depth e segs explode false doc pt w')
      /\ out (snd (process_entity depth e segs explode true doc pt w))
         = out (snd (process_entity depth e segs explode false doc pt w')))
  /\ (forall depth segs explode doc,
        out (main depth (mkArgs segs explode true) doc)
        = out (main depth (mkArgs segs explode false) doc)).
Proof.
  split.
  - intros depth e segs explode doc pt w w' Hw.
    destruct (process_entity_same_records depth e segs explode doc pt)
      as [Ho He].
    rewrite !outcome_any_world, !out_any_world
      by apply process_entity_appends.
    rewrite Ho, He, Hw. split; reflexivity.
  - intros depth segs explode doc. unfold main, main_loop.
    cbn [args_approx_segs args_explode_inserts args_verbose].
    assert (Hb : forall v e,
               appends (try_except
                          (process_entity depth e segs explode v doc None)
                          (warn ("failed to process top-level entity "
                                 ++ dxftype e)))).
    { intros v e. apply appends_try_except;
        [apply process_entity_appends | intros; apply appends_print]. }
    destruct (same_records_for_each (modelspace doc)
                (fun e => try_except
                            (process_entity depth e segs explode true doc None)
                            (warn ("failed to process top-level entity "
                                   ++ dxftype e)))
                (fun e => try_except
                            (process_entity depth e segs explode false doc None)
                            (warn ("failed to process top-level entity "
                                   ++ dxftype e))))
      as [_ He].
    + intros e. apply Hb.
    + intros e. apply Hb.
    + intros e. apply same_records_try_except;
        try apply process_entity_appends;
        try (intros; apply appends_print).
      * apply process_entity_same_records.
      * intros; apply same_records_refl.
    + exact He.
Qed.

Lemma verbose_changes_no_record_witness :
  fst (process_entity 1 (CIRCLE (Ok [0; 0]) (Ok 1)) 8 false true
                      (mkDocument [] []) None empty_world)
  = fst (process_entity 1 (CIRCLE (Ok [0; 0]) (Ok 1)) 8 false false
                        (mkDocument [] []) None
                        (mkWorld [] [Processing_entity "LINE"]))
  /\ out (snd (process_entity 1 (CIRCLE (Ok [0; 0]) (Ok 1)) 8 false true
                              (mkDocument [] []) None empty_world))
     = out (snd (process_entity 1 (CIRCLE (Ok [0; 0]) (Ok 1)) 8 false false
                                (mkDocument [] []) None
                                (mkWorld [] [Processing_entity "LINE"]))).
Proof.
  apply (proj1 verbose_changes_no_record 1%nat (CIRCLE (Ok [0; 0]) (Ok 1)) 8%Z
               false (mkDocument [] []) None empty_world
               (mkWorld [] [Processing_entity "LINE"])).
  reflexivity.
Defined.

(** ** Without [verbose], only warnings are printed *)

Section OnlyPrints.

Variable P : message -> Prop.

Lemma only_prints_ret {A : Type} (a : A) : Forall P (printed (ret a)).
Proof. constructor. Qed.

Lemma only_prints_lift {A : Type} (r : result A) : Forall P (printed (lift r)).
Proof. constructor. Qed.

Lemma only_prints_out_append (rec : record) :
  Forall P (printed (out_append rec)).
Proof. constructor. Qed.

Lemma only_prints_print (m : message) : P m -> Forall P (printed (print m)).
Proof. intros Hm. repeat constructor. exact Hm. Qed.

Lemma only_prints_bindM {A B : Type} (c : M A) (k : A -> M B) :
  appends c -> (forall a, appends (k a)) ->
  Forall P (printed c) -> (forall a, Forall P (printed (k a))) ->
  Forall P (printed (bindM c k)).
Proof.
  intros Hc Hk Pc Pk.
  destruct (run_bindM c k Hc Hk) as [_ [_ ->]].
  apply Forall_app. split; [exact Pc|].
  destruct (outcome c); [apply Pk | constructor].
Qed.

Lemma only_prints_try_except {A : Type} (b : M A) (h : exn -> M A) :
  appends b -> (forall ex, appends (h ex)) ->
  Forall P (printed b) -> (forall ex, Forall P (printed (h ex))) ->
  Forall P (printed (try_except b h)).
Proof.
  intros Hb Hh Pb Ph.
  destruct (run_try_except b h Hb Hh) as [_ [_ ->]].
  apply Forall_app. split; [exact Pb|].
  destruct (outcome b); [constructor | apply Ph].
Qed.

Lemma only_prints_for_each {A : Type} (l : list A) (body : A -> M unit) :
  (forall x, appends (body x)) -> (forall x, Forall P (printed (body x))) ->
  Forall P (printed (for_each l body)).
Proof.
  intros Hb Pb. induction l as [|x xs IH]; cbn [for_each].
  - apply only_prints_ret.
  - apply only_prints_bindM; auto.
    intros _. apply appends_for_each. exact Hb.
Qed.

End OnlyPrints.

Ltac only_prints_step :=
  first
    [ assumption
    | apply only_prints_ret
    | apply only_prints_lift
    | apply only_prints_out_append
    | apply only_prints_print; reflexivity
    | apply only_prints_bindM; [appends_auto | intros ?; appends_auto | | intros ?]
    | match goal with
      | |- Forall _ (printed (match ?x with _ => _ end)) => destruct x
      end ].

Ltac only_prints_auto := repeat only_prints_step.

Lemma printed_ret_bindM {B : Type} (k : unit -> M B) :
  printed (bindM (ret tt) k) = printed (k tt).
Proof. reflexivity. Qed.

Lemma only_warnings_warn (what : string) (ex : exn) :
  Forall (fun m => is_warning m = true) (printed (warn what ex)).
Proof. apply only_prints_print. reflexivity. Qed.

Lemma spline_to_poly_only_warnings fit_points control_points segments :
  Forall (fun m => is_warning m = true)
         (printed (spline_to_poly fit_points control_points segments)).
Proof.
  unfold spline_to_poly.
  apply only_prints_bindM; [appends_auto | intros ?; appends_auto | | intros ?].
  - apply only_prints_try_except; [appends_auto | intros ?; appends_auto | |].
    + apply only_prints_lift.
    + intros ex. only_prints_auto.
  - only_prints_auto.
Qed.

Lemma process_entity_only_warnings depth :
  forall e segs explode doc pt,
    Forall (fun m => is_warning m = true)
           (printed (process_entity depth e segs explode false doc pt)).
Proof.
  induction depth as [|d IH]; intros e segs explode doc pt.
  - apply only_prints_lift.
  - cbn [process_entity when]. rewrite printed_ret_bindM.
    destruct e.
    + apply only_prints_try_except;
        [apply LINE_try_appends | intros; apply appends_print
         | unfold LINE_try; only_prints_auto | apply only_warnings_warn].
    + apply only_prints_try_except;
        [apply LWPOLYLINE_try_appends | intros; apply appends_print
         | unfold LWPOLYLINE_try; only_prints_auto | apply only_warnings_warn].
    + apply only_prints_try_except;
        [apply POLYLINE_try_appends | intros; apply appends_print
         | unfold POLYLINE_try; only_prints_auto | apply only_warnings_warn].
    + apply only_prints_try_except;
        [apply CIRCLE_try_appends | intros; apply appends_print
         | unfold CIRCLE_try; only_prints_auto | apply only_warnings_warn].
    + apply only_prints_try_except;
        [apply ARC_try_appends | intros; apply appends_print
         | unfold ARC_try; only_prints_auto | apply only_warnings_warn].
    + apply only_prints_try_except;
        [apply ELLIPSE_try_appends | intros; apply appends_print
         | unfold ELLIPSE_try; only_prints_auto | apply only_warnings_warn].
    + apply only_prints_try_except;
        [apply SPLINE_try_appends | intros; apply appends_print
         | | apply only_warnings_warn].
      unfold SPLINE_try.
      apply only_prints_bindM;
        [apply spline_to_poly_appends | intros ?; appends_auto
         | apply spline_to_poly_only_warnings | intros ?].
      only_prints_auto.
    + destruct explode; [|apply only_prints_ret].
      apply only_prints_try_except;
        [apply INSERT_try_appends; intros; apply process_entity_appends
         | intros; apply appends_print | | apply only_warnings_warn].
      unfold INSERT_try. cbn [when].
      repeat (apply only_prints_bindM;
              [ appends_auto
              | intros ?; repeat (first [appends_step
                                        | apply process_entity_appends])
              | first [apply only_prints_lift | apply only_prints_ret]
              | intros ? ]).
      destruct (blocks_get (blocks doc) a) as [blk|].
      * apply only_prints_for_each;
           [intros; apply process_entity_appends | intros; apply IH].
      * apply only_prints_print. reflexivity.
    + apply only_prints_ret.
Qed.

(** X12. With [verbose] off every line printed is a warning: nothing
    is printed for an entity that is processed without failure or
    ignored, by [process_entity] at any depth and by [main] over a
    whole document. *)
Theorem without_verbose_only_warnings :
  (forall depth e segs explode doc pt w,
      exists msgs,
        stderr (snd (process_entity depth e segs explode false doc pt w))
        = stderr w ++ msgs
        /\ Forall (fun m => is_warning m = true) msgs)
  /\ (forall depth segs explode doc,
        Forall (fun m => is_warning m = true)
               (stderr (main depth (mkArgs segs explode false) doc))).
Proof.
  split.
  - intros depth e segs explode doc pt w.
    exists (printed (process_entity depth e segs explode false doc pt)).
    split.
    + apply stderr_any_world, process_entity_appends.
    + apply process_entity_only_warnings.
  - intros depth segs explode doc.
    change (Forall (fun m => is_warning m = true)
              (printed (main_loop depth (modelspace doc)
                                  (mkArgs segs explode false) doc))).
    unfold main_loop. apply only_prints_for_each.
    + intros e. apply appends_try_except;
        [apply process_entity_appends | intros; apply appends_print].
    + intros e. apply only_prints_try_except.
      * apply process_entity_appends.
      * intros; apply appends_print.
      * apply process_entity_only_warnings.
      * intros ex. apply only_warnings_warn.
Qed.

(** ** Documents compose; block tables are read only on request *)

Lemma emitted_process_entity_not_exploding d d' e segs verbose doc doc' pt :
  emitted (process_entity (S d) e segs false verbose doc pt)
  = emitted (process_entity (S d') e segs false verbose doc' pt).
Proof. destruct e; reflexivity. Qed.

Lemma emitted_INSERT_not_exploding d name insert xscale yscale rotation segs
      verbose doc pt :
  emitted (process_entity (S d) (INSERT name insert xscale yscale rotation)
                          segs false verbose doc pt) = [].
Proof. destruct verbose; reflexivity. Qed.

Lemma flat_map_filter_nil {A B : Type} (keep : A -> bool) (f : A -> list B)
      (l : list A) :
  (forall x, keep x = false -> f x = []) ->
  flat_map f (filter keep l) = flat_map f l.
Proof.
  intros Hf. induction l as [|x xs IH]; cbn [filter flat_map].
  - reflexivity.
  - destruct (keep x) eqn:E; cbn [flat_map].
    + rewrite IH. reflexivity.
    + rewrite (Hf x E), IH. reflexivity.
Qed.

(** X14. Without [--explode-inserts] the block table is never read and
    block instances yield nothing: the output of [main] is the output
    for the document with its INSERT entities removed and any other
    block table, at any depth below the recursion limit. *)
Theorem without_explode_blocks_are_unused
        d d' segs verbose entities blocks blocks' :
  out (main (S d) (mkArgs segs false verbose) (mkDocument entities blocks))
  = out (main (S d') (mkArgs segs false verbose)
              (mkDocument (filter (fun e => negb (is_INSERT e)) entities)
                          blocks')).
Proof.
  rewrite !main_out.
  cbn [modelspace args_approx_segs args_explode_inserts args_verbose].
  rewrite flat_map_filter_nil.
  - apply flat_map_ext. intros e.
    apply emitted_process_entity_not_exploding.
  - intros e He. destruct e; try discriminate.
    apply emitted_INSERT_not_exploding.
Qed.

Lemma for_each_pointwise {A : Type} (l : list A) (body body' : A -> M unit) :
  (forall x w, body x w = body' x w) ->
  forall w, for_each l body w = for_each l body' w.
Proof.
  intros Hb. induction l as [|x xs IH]; intros w; cbn [for_each].
  - reflexivity.
  - unfold bindM. rewrite Hb.
    destruct (body' x w) as [[[]|ex] w1]; [apply IH | reflexivity].
Qed.

(** [process_entity] reads nothing of the document but its block
    table. *)
Lemma process_entity_reads_blocks_only depth :
  forall e segs explode verbose doc doc' pt w,
    blocks doc = blocks doc' ->
    process_entity depth e segs explode verbose doc pt w
    = process_entity depth e segs explode verbose doc' pt w.
Proof.
  induction depth as [|d IH]; intros e segs explode verbose doc doc' pt w Hb.
  - reflexivity.
  - destruct e; try reflexivity.
    destruct explode; [|reflexivity].
    rewrite !process_entity_INSERT_explode.
    assert (Hrun : forall w1,
               INSERT_try
                 (fun be tr => process_entity d be segs true verbose doc tr)
                 name insert xscale yscale rotation verbose doc w1
               = INSERT_try
                   (fun be tr => process_entity d be segs true verbose doc' tr)
                   name insert xscale yscale rotation verbose doc' w1).
    { intros w1. unfold INSERT_try, bindM, lift. rewrite <- Hb.
      destruct name as [nm|]; [|reflexivity].
      destruct insert as [ins|]; [|reflexivity].
      destruct (getitem ins 0); [|reflexivity].
      destruct (getitem ins 1); [|reflexivity].
      destruct (getattr xscale 1); [|reflexivity].
      destruct (getattr yscale 1); [|reflexivity].
      destruct (getattr rotation 0); [|reflexivity].
      destruct (when verbose _ w1) as [[[]|ex] w2]; [|reflexivity].
      destruct (blocks_get (blocks doc) nm) as [blk|]; [|reflexivity].
      apply for_each_pointwise. intros be w'. apply IH. exact Hb. }
    unfold bindM, try_except.
    destruct (when verbose (print (Processing_entity "INSERT")) w)
      as [[[]|ex] w1]; [|reflexivity].
    rewrite Hrun. reflexivity.
Qed.

(** X15. The output of [main] composes over the model space: for a
    document whose entities are [es1] followed by [es2] it is the
    output for [es1] followed by the output for [es2], with the same
    block table, so no entity's records depend on the entities around
    it. *)
Theorem main_output_composes d a es1 es2 blocks :
  out (main (S d) a (mkDocument (es1 ++ es2) blocks))
  = out (main (S d) a (mkDocument es1 blocks))
    ++ out (main (S d) a (mkDocument es2 blocks)).
Proof.
  rewrite !main_out. cbn [modelspace].
  rewrite flat_map_app.
  f_equal; apply flat_map_ext; intros e; unfold emitted;
    do 2 f_equal; apply process_entity_reads_blocks_only; reflexivity.
Qed.

(** ** Invariants of the records *)

Section Emits.

Variable Q : list record -> Prop.
Hypothesis Q_nil : Q [].
Hypothesis Q_app : forall l1 l2, Q l1 -> Q l2 -> Q (l1 ++ l2).

Lemma emits_ret {A : Type} (a : A) : Q (emitted (ret a)).
Proof. exact Q_nil. Qed.

Lemma emits_lift {A : Type} (r : result A) : Q (emitted (lift r)).
Proof. exact Q_nil. Qed.

Lemma emits_print (m : message) : Q (emitted (print m)).
Proof. exact Q_nil. Qed.

Lemma emits_when_print (b : bool) (m : message) : Q (emitted (when b (print m))).
Proof. destruct b; exact Q_nil. Qed.

Lemma emits_bindM {A B : Type} (c : M A) (k : A -> M B) :
  appends c -> (forall a, appends (k a)) ->
  Q (emitted c) -> (forall a, outcome c = Ok a -> Q (emitted (k a))) ->
  Q (emitted (bindM c k)).
Proof.
  intros Hc Hk Qc Qk.
  destruct (run_bindM c k Hc Hk) as [_ [-> _]].
  apply Q_app; [exact Qc|].
  destruct (outcome c) as [a|ex]; [apply Qk; reflexivity | exact Q_nil].
Qed.

Lemma emits_try_except_warn (b : M unit) (what : string) :
  appends b -> Q (emitted b) -> Q (emitted (try_except b (warn what))).
Proof.
  intros Hb Qb.
  destruct (run_try_except b (warn what) Hb
              (fun ex => appends_print _)) as [_ [-> _]].
  apply Q_app; [exact Qb|].
  destruct (outcome b); exact Q_nil.
Qed.

Lemma emits_for_each {A : Type} (l : list A) (body : A -> M unit) :
  (forall x, appends (body x)) -> (forall x, Q (emitted (body x))) ->
  Q (emitted (for_each l body)).
Proof.
  intros Hb Qb. induction l as [|x xs IH]; cbn [for_each].
  - exact Q_nil.
  - apply emits_bindM; auto.
    intros _. apply appends_for_each. exact Hb.
Qed.

(** A pure computation of points followed by the append of their
    polyline, unguarded or under [if pts:]. *)
Lemma emits_polyline_always (X : result (list (list R))) :
  (forall pts, X = Ok pts -> Q [polyline pts]) ->
  Q (emitted (bindM (lift X) (fun pts => out_append (polyline pts)))).
Proof.
  intros HX. unfold emitted, bindM, lift.
  destruct X as [pts|ex]; [|exact Q_nil].
  apply (HX pts eq_refl).
Qed.

Lemma emits_polyline_if_any (X : result (list (list R))) :
  (forall pts, X = Ok pts -> Q [polyline pts]) ->
  Q (emitted (bindM (lift X)
                    (fun pts => if truthy pts then out_append (polyline pts)
                                else ret tt))).
Proof.
  intros HX. unfold emitted, bindM, lift.
  destruct X as [pts|ex]; [|exact Q_nil].
  destruct (truthy pts); [|exact Q_nil].
  apply (HX pts eq_refl).
Qed.

(** What the INSERT branch emits, from what the recursive calls
    emit. *)
Lemma emits_INSERT_try (p : entity -> option transform -> M unit)
      name insert xscale yscale rotation verbose doc :
  (forall be tr, appends (p be tr)) ->
  (forall be tr, Q (emitted (p be (Some tr)))) ->
  Q (emitted (INSERT_try p name insert xscale yscale rotation verbose doc)).
Proof.
  intros Hp Qp. unfold INSERT_try.
  repeat (apply emits_bindM;
          [ first [apply appends_lift | apply appends_when, appends_print]
          | intros ?; repeat (first [appends_step | apply Hp])
          | first [apply emits_lift | apply emits_when_print]
          | intros ? _ ]).
  destruct (blocks_get (blocks doc) a) as [blk|].
  - apply emits_for_each; intros; [apply Hp | apply Qp].
  - apply emits_print.
Qed.

(** The records of [process_entity], from those of the bodies of
    its branches. *)
Lemma emits_process_entity
      (ok : entity -> option transform -> Prop) :
  (forall be tr, ok be (Some tr)) ->
  (forall start end_ pt, ok (LINE start end_) pt ->
                         Q (emitted (LINE_try start end_ pt))) ->
  (forall g pt, ok (LWPOLYLINE g) pt -> Q (emitted (LWPOLYLINE_try g pt))) ->
  (forall v pt, ok (POLYLINE v) pt -> Q (emitted (POLYLINE_try v pt))) ->
  (forall c r segs pt, ok (CIRCLE c r) pt ->
                       Q (emitted (CIRCLE_try c r segs pt))) ->
  (forall c r sa ea segs pt, ok (ARC c r sa ea) pt ->
                             Q (emitted (ARC_try c r sa ea segs pt))) ->
  (forall c m r segs pt, ok (ELLIPSE c m r) pt ->
                         Q (emitted (ELLIPSE_try c m r segs pt))) ->
  (forall f c segs pt, ok (SPLINE f c) pt ->
                       Q (emitted (SPLINE_try f c segs pt))) ->
  forall depth e segs explode verbose doc pt,
    ok e pt ->
    Q (emitted (process_entity depth e segs explode verbose doc pt)).
Proof.
  intros Hok HL HLW HP HC HA HE HS.
  induction depth as [|d IH]; intros e segs explode verbose doc pt Hpt.
  - exact Q_nil.
  - cbn [process_entity].
    apply emits_bindM;
      [ apply appends_when, appends_print | | apply emits_when_print | ].
    + intros _.
      destruct e; try (destruct explode);
        try (apply appends_try_except; [|intros; apply appends_print]);
        first [ apply LINE_try_appends | apply LWPOLYLINE_try_appends
              | apply POLYLINE_try_appends | apply CIRCLE_try_appends
              | apply ARC_try_appends | apply ELLIPSE_try_appends
              | apply SPLINE_try_appends
              | apply INSERT_try_appends; intros; apply process_entity_appends
              | apply appends_when, appends_print ].
    + intros _ _.
      destruct e.
      * apply emits_try_except_warn; [apply LINE_try_appends | auto].
      * apply emits_try_except_warn; [apply LWPOLYLINE_try_appends | auto].
      * apply emits_try_except_warn; [apply POLYLINE_try_appends | auto].
      * apply emits_try_except_warn; [apply CIRCLE_try_appends | auto].
      * apply emits_try_except_warn; [apply ARC_try_appends | auto].
      * apply emits_try_except_warn; [apply ELLIPSE_try_appends | auto].
      * apply emits_try_except_warn; [apply SPLINE_try_appends | auto].
      * destruct explode; [|apply emits_when_print].
        apply emits_try_except_warn.
        -- apply INSERT_try_appends; intros; apply process_entity_appends.
        -- apply emits_INSERT_try.
           ++ intros; apply process_entity_appends.
           ++ intros be tr. apply IH. apply Hok.
      * apply emits_when_print.
Qed.

End Emits.

Lemma paired_app (l1 l2 : list record) :
  paired l1 -> paired l2 -> paired (l1 ++ l2).
Proof.
  intros H1 H2. induction H1; cbn [app]; try assumption;
    constructor; assumption.
Qed.

Lemma paired_one_polyline (pts : list (list R)) : paired [polyline pts].
Proof. repeat constructor. Qed.

Lemma emitted_spline_to_poly fit_points control_points segments :
  emitted (spline_to_poly fit_points control_points segments) = [].
Proof.
  unfold emitted, spline_to_poly, try_except, bindM, lift.
  destruct (spline_to_poly_try fit_points control_points (kwarg 48%Z segments))
    as [[pts|]|ex]; reflexivity.
Qed.

Lemma emits_SPLINE_try (Q : list record -> Prop) fit_points control_points segs pt :
  Q [] -> (forall l1 l2, Q l1 -> Q l2 -> Q (l1 ++ l2)) ->
  (forall pts0 pts,
      outcome (spline_to_poly fit_points control_points (Some segs)) = Ok pts0 ->
      transform_all pt pts0 = Ok pts -> Q [polyline pts]) ->
  Q (emitted (SPLINE_try fit_points control_points segs pt)).
Proof.
  intros Q_nil Q_app HQ. unfold SPLINE_try.
  apply emits_bindM; try assumption.
  - apply spline_to_poly_appends.
  - intros pts0. appends_auto.
  - rewrite emitted_spline_to_poly. exact Q_nil.
  - intros pts0 H0. apply emits_polyline_if_any; try assumption.
    intros pts Hp. apply (HQ pts0 pts H0 Hp).
Qed.

Lemma process_entity_paired depth e segs explode verbose doc pt :
  paired (emitted (process_entity depth e segs explode verbose doc pt)).
Proof.
  apply (emits_process_entity paired paired_nil paired_app (fun _ _ => True));
    auto; intros.
  - unfold LINE_try. apply emits_polyline_always; [constructor|].
    intros; apply paired_one_polyline.
  - unfold LWPOLYLINE_try. apply emits_polyline_always; [constructor|].
    intros; apply paired_one_polyline.
  - unfold POLYLINE_try. apply emits_polyline_if_any; [constructor|].
    intros; apply paired_one_polyline.
  - match goal with
    | |- paired (emitted (CIRCLE_try ?c ?r ?n ?p)) =>
        unfold emitted;
        destruct (CIRCLE_try_cases c r n p empty_world)
          as [[ex Hc]|[pts [cx [cy [r0 Hc]]]]]; rewrite Hc;
        cbn [snd out empty_world app];
        first [apply paired_nil | apply paired_circle, paired_nil]
    end.
  - match goal with
    | |- paired (emitted (ARC_try ?c ?r ?sa ?ea ?n ?p)) =>
        unfold emitted;
        destruct (ARC_try_cases c r sa ea n p empty_world)
          as [[ex Hc]|[pts [cx [cy [r0 [sa0 [ea0 Hc]]]]]]]; rewrite Hc;
        cbn [snd out empty_world app];
        first [apply paired_nil | apply paired_arc, paired_nil]
    end.
  - unfold ELLIPSE_try. apply emits_polyline_always; [constructor|].
    intros; apply paired_one_polyline.
  - apply emits_SPLINE_try; [constructor | apply paired_app |].
    intros; apply paired_one_polyline.
Qed.

(** X16. In everything [process_entity] appends and in the whole
    output of [main], every exact circle or arc record comes
    immediately after a polyline record; no exact record stands first
    or follows another exact record. *)
Theorem exact_records_follow_polylines :
  (forall depth e segs explode verbose doc pt,
      paired (emitted (process_entity depth e segs explode verbose doc pt)))
  /\ (forall depth a doc, paired (out (main depth a doc))).
Proof.
  split; [apply process_entity_paired|].
  intros depth a doc.
  change (paired (emitted (main_loop depth (modelspace doc) a doc))).
  unfold main_loop.
  apply emits_for_each; [constructor | apply paired_app | |].
  - intros e. apply appends_try_except;
      [apply process_entity_appends | intros; apply appends_print].
  - intros e. apply emits_try_except_warn;
      [constructor | apply paired_app | apply process_entity_appends
       | apply process_entity_paired].
Qed.

(** ** Polyline points are 2-D *)

Lemma mapM_Forall_result {A B : Type} (f : A -> result B) (P : B -> Prop)
      (l : list A) (ys : list B) :
  (forall x y, f x = Ok y -> P y) -> mapM f l = Ok ys -> Forall P ys.
Proof.
  intros Hf. revert ys. induction l as [|x xs IH]; intros ys Hm; cbn [mapM] in Hm.
  - inversion Hm. constructor.
  - destruct (f x) as [y|ex] eqn:E; cbn [bind] in Hm; [|discriminate].
    destruct (mapM f xs) as [ys0|ex] eqn:Es; cbn [bind] in Hm; [|discriminate].
    inversion Hm; subst. constructor; [apply (Hf x y E) | apply IH; reflexivity].
Qed.

Lemma transform_point_length (p insert q : list R) (sx sy rot : R) :
  transform_point p insert sx sy rot = Ok q -> List.length q = 2%nat.
Proof.
  unfold transform_point. intros H.
  destruct (getitem p 0); cbn [bind] in H; [|discriminate].
  destruct (getitem p 1); cbn [bind] in H; [|discriminate].
  destruct (rot_point _ _ rot) as [rx ry].
  destruct (getitem insert 0); cbn [bind] in H; [|discriminate].
  destruct (getitem insert 1); cbn [bind] in H; [|discriminate].
  inversion H. reflexivity.
Qed.

Lemma transform_point_star_length (p q : list R) (tr : transform) :
  transform_point_star p tr = Ok q -> List.length q = 2%nat.
Proof.
  destruct tr as [[[ins sx] sy] rot]. apply transform_point_length.
Qed.

Lemma transform_all_flat (pt : option transform) (pts pts' : list (list R)) :
  pt <> None \/ Forall (fun p => List.length p = 2%nat) pts ->
  transform_all pt pts = Ok pts' ->
  Forall (fun p => List.length p = 2%nat) pts'.
Proof.
  intros Hpt H. destruct pt as [tr|]; cbn [transform_all] in H.
  - apply (mapM_Forall_result _ _ _ _
             (fun p q => transform_point_star_length p q tr) H).
  - inversion H; subst. destruct Hpt as [Hn|Hf]; [contradiction | exact Hf].
Qed.

Lemma recentre_and_transform_flat cx cy tr pts pts' :
  recentre_and_transform cx cy tr pts = Ok pts' ->
  Forall (fun p => List.length p = 2%nat) pts'.
Proof.
  apply mapM_Forall_result. intros p q H.
  destruct (getitem p 0); cbn [bind] in H; [|discriminate].
  destruct (getitem p 1); cbn [bind] in H; [|discriminate].
  apply (transform_point_star_length _ _ _ H).
Qed.

Lemma map_point_at_flat cx cy rx ry (angles : list R) :
  Forall (fun p => List.length p = 2%nat) (map (point_at cx cy rx ry) angles).
Proof. apply Forall_map_point_at. reflexivity. Qed.

Lemma sample_circle_flat cx cy r segs pts :
  sample_circle cx cy r (Some segs) = Ok pts ->
  Forall (fun p => List.length p = 2%nat) pts.
Proof.
  rewrite sample_circle_angles. intros H; inversion H.
  apply map_point_at_flat.
Qed.

Lemma sample_arc_flat cx cy r sa ea segs pts :
  sample_arc cx cy r sa ea (Some segs) = Ok pts ->
  Forall (fun p => List.length p = 2%nat) pts.
Proof.
  destruct (Z.eq_dec segs 0) as [->|Hn].
  - rewrite sample_arc_zero. discriminate.
  - rewrite sample_arc_angles by exact Hn. intros H; inversion H.
    apply map_point_at_flat.
Qed.

Lemma ellipse_points_flat cx cy rx ry segs pts :
  ellipse_points cx cy rx ry segs = Ok pts ->
  Forall (fun p => List.length p = 2%nat) pts.
Proof.
  rewrite ellipse_points_eq. intros H; inversion H.
  apply Forall_forall. intros p Hp.
  apply in_map_iff in Hp. destruct Hp as [i [<- _]]. reflexivity.
Qed.

Lemma flat_one_polyline (pts : list (list R)) :
  Forall (fun p => List.length p = 2%nat) pts -> Forall flat_record [polyline pts].
Proof. intros H. constructor; [exact H | constructor]. Qed.

(** In a hypothesis [H : ... = Ok _], the next [result] scrutinised
    by a [bind] is split; the [Raise] case contradicts [H]. *)
Ltac step_bind H :=
  match type of H with
  | bind ?r _ = Ok _ =>
      let E := fresh "E" in
      destruct r eqn:E; cbn [bind] in H; [|discriminate H]
  end.

Lemma CIRCLE_try_flat c r segs pt :
  Forall flat_record (emitted (CIRCLE_try c r segs pt)).
Proof.
  unfold emitted, CIRCLE_try, bindM, lift.
  destruct c as [c|]; [|constructor].
  destruct (getitem c 0) as [cx|]; [|constructor].
  destruct (getitem c 1) as [cy|]; [|constructor].
  destruct r as [r|]; [|constructor].
  destruct pt as [tr|].
  - destruct (sample_circle 0 0 r (Some segs)) as [pts|]; [|constructor].
    destruct (recentre_and_transform cx cy tr pts) as [pts'|] eqn:E;
      [|constructor].
    cbn. repeat constructor. apply (recentre_and_transform_flat _ _ _ _ _ E).
  - destruct (sample_circle cx cy r (Some segs)) as [pts|] eqn:E; [|constructor].
    cbn. repeat constructor. apply (sample_circle_flat _ _ _ _ _ E).
Qed.

Lemma ARC_try_flat c r sa ea segs pt :
  Forall flat_record (emitted (ARC_try c r sa ea segs pt)).
Proof.
  unfold emitted, ARC_try, bindM, lift.
  destruct c as [c|]; [|constructor].
  destruct (getitem c 0) as [cx|]; [|constructor].
  destruct (getitem c 1) as [cy|]; [|constructor].
  destruct r as [r|]; [|constructor].
  destruct sa as [sa|]; [|constructor].
  destruct ea as [ea|]; [|constructor].
  destruct pt as [tr|].
  - destruct (sample_arc 0 0 r sa ea (Some segs)) as [pts|]; [|constructor].
    destruct (recentre_and_transform cx cy tr pts) as [pts'|] eqn:E;
      [|constructor].
    cbn. repeat constructor. apply (recentre_and_transform_flat _ _ _ _ _ E).
  - destruct (sample_arc cx cy r sa ea (Some segs)) as [pts|] eqn:E;
      [|constructor].
    cbn. repeat constructor. apply (sample_arc_flat _ _ _ _ _ _ _ E).
Qed.

Lemma process_entity_flat depth e segs explode verbose doc pt :
  pt <> None \/ is_SPLINE e = false ->
  Forall flat_record
         (emitted (process_entity depth e segs explode verbose doc pt)).
Proof.
  apply (emits_process_entity (Forall flat_record) (Forall_nil _)
           (fun l1 l2 H1 H2 => proj2 (Forall_app _ l1 l2) (conj H1 H2))
           (fun e pt => pt <> None \/ is_SPLINE e = false)).
  - intros be tr. left. discriminate.
  - intros start end_ pt0 _. unfold LINE_try.
    apply emits_polyline_always; [constructor|].
    intros pts H. apply flat_one_polyline.
    repeat step_bind H.
    destruct pt0 as [tr|].
    + repeat step_bind H. inversion H; subst.
      repeat constructor;
        eapply transform_point_star_length; eassumption.
    + inversion H. repeat constructor.
  - intros g pt0 _. unfold LWPOLYLINE_try.
    apply emits_polyline_always; [constructor|].
    intros pts H. apply flat_one_polyline.
    repeat step_bind H.
    refine (transform_all_flat pt0 _ _ (or_intror _) H).
    refine (mapM_Forall_result _ _ _ _ _ E0).
    intros vx y Hv. destruct vx as [|x0 [|y0 rest]]; inversion Hv. reflexivity.
  - intros v pt0 _. unfold POLYLINE_try.
    apply emits_polyline_if_any; [constructor|].
    intros pts H. apply flat_one_polyline.
    repeat step_bind H.
    refine (transform_all_flat pt0 _ _ (or_intror _) H).
    refine (mapM_Forall_result _ _ _ _ _ E0).
    intros vx y Hv. repeat step_bind Hv. inversion Hv. reflexivity.
  - intros. apply CIRCLE_try_flat.
  - intros. apply ARC_try_flat.
  - intros c m r n pt0 _. unfold ELLIPSE_try.
    apply emits_polyline_always; [constructor|].
    intros pts H. apply flat_one_polyline.
    repeat step_bind H.
    refine (transform_all_flat pt0 _ _ (or_intror _) H).
    eapply ellipse_points_flat; eassumption.
  - intros f c n pt0 [Hpt|Hs]; [|discriminate].
    apply emits_SPLINE_try;
      [constructor
      | intros l1 l2 H1 H2; apply Forall_app; split; assumption |].
    intros pts0 pts _ H. apply flat_one_polyline.
    apply (transform_all_flat pt0 pts0 pts (or_introl Hpt) H).
Qed.

Lemma Forall_flat_map_intro {A B : Type} (P : B -> Prop) (f : A -> list B)
      (l : list A) :
  (forall x, In x l -> Forall P (f x)) -> Forall P (flat_map f l).
Proof.
  induction l as [|x xs IH]; intros Hf; cbn [flat_map].
  - constructor.
  - apply Forall_app. split.
    + apply Hf. left; reflexivity.
    + apply IH. intros y Hy. apply Hf. right; exact Hy.
Qed.

(** X17. Every polyline record that [process_entity] appends under a
    placement transform, so for every entity inside an expanded block,
    has points of exactly two coordinates; without a transform the
    same holds for every entity that is not a SPLINE.  Hence the
    output of [main] for a model space without SPLINE entities holds
    only 2-D polyline points, however its blocks are nested. *)
Theorem polyline_points_are_2d :
  (forall depth e segs explode verbose doc pt,
      pt <> None \/ is_SPLINE e = false ->
      Forall flat_record
             (emitted (process_entity depth e segs explode verbose doc pt)))
  /\ (forall d a doc,
        Forall (fun e => is_SPLINE e = false) (modelspace doc) ->
        Forall flat_record (out (main (S d) a doc))).
Proof.
  split.
  - intros. apply process_entity_flat. assumption.
  - intros d a doc Hms. rewrite main_out.
    apply Forall_flat_map_intro. intros e He.
    apply process_entity_flat. right.
    rewrite Forall_forall in Hms. apply Hms. exact He.
Qed.

Lemma polyline_points_are_2d_witness :
  Forall flat_record
         (emitted (process_entity 2
                     (SPLINE (Ok [[1; 2; 3]; [4; 5; 6]]) (Ok []))
                     8 true false (mkDocument [] [])
                     (Some ([10; 20], 1, 1, 0)))).
Proof.
  apply (proj1 polyline_points_are_2d 2%nat
               (SPLINE (Ok [[1; 2; 3]; [4; 5; 6]]) (Ok [])) 8%Z true false
               (mkDocument [] []) (Some ([10; 20], 1, 1, 0))).
  left. discriminate.
Defined.

(** X18. A SPLINE entity with fit points, processed without a
    placement transform, yields one polyline holding the fit points
    exactly as the entity supplies them, with every coordinate they
    carry (a third one included) and whatever the segment count. *)
Theorem top_level_spline_keeps_fit_points
        d fit control_points segs explode verbose doc w :
  fit <> [] ->
  out (snd (process_entity (S d) (SPLINE (Ok fit) control_points) segs explode
                           verbose doc None w))
  = out w ++ [polyline fit].
Proof.
  intros Hfit. rewrite process_entity_SPLINE_out. f_equal.
  destruct fit as [|p fit']; [contradiction|]. reflexivity.
Qed.

Lemma top_level_spline_keeps_fit_points_witness :
  out (snd (process_entity 1 (SPLINE (Ok [[1; 2; 3]; [4; 5; 6]]) (Ok [[0; 0]]))
                           8 false false (mkDocument [] []) None empty_world))
  = out empty_world ++ [polyline [[1; 2; 3]; [4; 5; 6]]].
Proof.
  apply (top_level_spline_keeps_fit_points
           0 [[1; 2; 3]; [4; 5; 6]] (Ok [[0; 0]]) 8%Z false false
           (mkDocument [] []) empty_world).
  discriminate.
Defined.

(** ** Lines *)

Lemma process_entity_LINE_out d start end_ segs explode verbose doc pt w :
  out (snd (process_entity (S d) (LINE start end_) segs explode verbose doc pt w))
  = out w ++ emitted (LINE_try start end_ pt).
Proof.
  cbn [process_entity]. apply traced_try_out. apply LINE_try_appends.
Qed.

(** X20. A LINE entity whose end points have at least two coordinates
    yields exactly one polyline of two points: without a transform the
    first two coordinates of the start and of the end point, any
    further coordinate dropped; under a placement transform the images
    of those two 2-D points. *)
Theorem line_two_point_polyline
        d x0 y0 rest0 x1 y1 rest1 segs explode verbose doc w :
  let e := LINE (Ok (x0 :: y0 :: rest0)) (Ok (x1 :: y1 :: rest1)) in
  out (snd (process_entity (S d) e segs explode verbose doc None w))
  = out w ++ [polyline [[x0; y0]; [x1; y1]]]
  /\ (forall tx ty sx sy rot,
        exists p q,
          transform_point [x0; y0] [tx; ty] sx sy rot = Ok p
          /\ transform_point [x1; y1] [tx; ty] sx sy rot = Ok q
          /\ out (snd (process_entity (S d) e segs explode verbose doc
                                      (Some ([tx; ty], sx, sy, rot)) w))
             = out w ++ [polyline [p; q]]).
Proof.
  intros e. subst e. split.
  - rewrite process_entity_LINE_out. reflexivity.
  - intros tx ty sx sy rot. do 2 eexists.
    split; [apply transform_point_xy|]. split; [apply transform_point_xy|].
    rewrite process_entity_LINE_out. reflexivity.
Qed.
